(** * Crash-test harness for the Gen3 ILC-C controller: codec, liveness monitor,
      result record and attack orchestrator.

    The development follows the two Python modules of the repository:
    - [ilc_test_common.py]: frame codec ([build_command], [parse_response]),
      liveness helpers ([check_device_alive], [wait_for_device]) and the
      [TestResult] record;
    - [test_crash.py]: the [CrashTester] class and [run_crash_test].

    Conventions of the embedding.
    - Python [int] is [Z]; [bytes] is [list byte]; [str] is [string].
    - A pure Python call that may raise returns an [outcome]: [Ok v] or
      [Raise e].  Code that touches the clock, the network or the tester
      object runs in a state monad [M] whose results are a value, an
      exception, or [OutOfFuel].
    - The [float] of [success_rate] is IEEE 754 binary64 with
      round-to-nearest-even, a finite float being its exact rational value.
      Time stamps and durations are exact rationals.
    - Socket I/O, the worker threads and the asynchronous stop flag are read
      from an environment ([Env]) of oracles indexed by a tick counter kept in
      the [World]; the clock only advances by the durations the oracles report
      and by [time.sleep].
    - [while] loops governed by the clock take a fuel argument; [OutOfFuel]
      means that the fuel ran out, never a Python value.
    - Console output is left out. *)

From Stdlib Require Import ZArith List String Bool Lia.
From Stdlib Require Import QArith Qround Qpower Qabs Lqa.
From Stdlib Require Import Strings.Byte.
Import ListNotations.

Local Open Scope Z_scope.

(** ** Python primitives used by the sources *)

Module Py.

Inductive exn : Type :=
| ValueError
| StructError
| IndexError
| ZeroDivisionError
| OverflowError.

Inductive outcome (A : Type) : Type :=
| Ok (a : A)
| Raise (e : exn).

Arguments Ok {A} a.
Arguments Raise {A} e.

Definition bind {A B : Type} (m : outcome A) (k : A -> outcome B) : outcome B :=
  match m with
  | Ok a => k a
  | Raise e => Raise e
  end.

Definition bytes : Type := list byte.

(** [len(b)] *)
Definition len {A : Type} (b : list A) : Z := Z.of_nat (List.length b).

(** The [int] obtained by indexing or iterating a [bytes] object. *)
Definition int_of_byte (b : byte) : Z := Z.of_N (Byte.to_N b).

(** One element of [bytes([...])]: [ValueError] outside [range(256)]. *)
Definition byte_of_int (z : Z) : outcome byte :=
  if (0 <=? z) && (z <? 256) then
    match Byte.of_N (Z.to_N z) with
    | Some b => Ok b
    | None => Raise ValueError
    end
  else Raise ValueError.

(** [bytes(l)] for a list of ints [l]. *)
Fixpoint bytes_of_ints (l : list Z) : outcome bytes :=
  match l with
  | [] => Ok []
  | z :: l' =>
      bind (byte_of_int z) (fun b =>
      bind (bytes_of_ints l') (fun bs => Ok (b :: bs)))
  end.

(** [b[i]] with Python's negative indices; [IndexError] out of range. *)
Definition getitem (b : bytes) (i : Z) : outcome Z :=
  let j := if i <? 0 then i + len b else i in
  if (0 <=? j) && (j <? len b)
  then Ok (int_of_byte (nth (Z.to_nat j) b x00))
  else Raise IndexError.

(** A slice bound, as Python normalises it: negative bounds count from the
    end, and everything is clamped to [0 .. len]. *)
Definition slice_bound (n i : Z) : Z :=
  let j := if i <? 0 then i + n else i in
  Z.max 0 (Z.min j n).

(** [b[lo:hi]] *)
Definition slice (b : bytes) (lo hi : Z) : bytes :=
  let l := slice_bound (len b) lo in
  let h := slice_bound (len b) hi in
  firstn (Z.to_nat (h - l)) (skipn (Z.to_nat l) b).

(** [b[lo:]] *)
Definition slice_from {A : Type} (b : list A) (lo : Z) : list A :=
  skipn (Z.to_nat (slice_bound (len b) lo)) b.

(** [struct.pack('<H', n)]: two bytes, least significant first;
    [struct.error] unless [0 <= n <= 65535]. *)
Definition struct_pack_H (n : Z) : outcome bytes :=
  if (0 <=? n) && (n <=? 65535) then
    bind (byte_of_int (n mod 256)) (fun lo =>
    bind (byte_of_int (n / 256)) (fun hi => Ok [lo; hi]))
  else Raise StructError.

(** [struct.unpack('<H', b)[0]]: [struct.error] unless [b] has two bytes. *)
Definition struct_unpack_H (b : bytes) : outcome Z :=
  match b with
  | [lo; hi] => Ok (int_of_byte lo + 256 * int_of_byte hi)
  | _ => Raise StructError
  end.

End Py.

Import Py.

Notation "x <- m ;; k" := (bind m (fun x => k))
  (at level 61, m at next level, right associativity).

(** ** [ilc_test_common.py]: configuration and protocol helpers *)

Definition SCB_PORT : Z := 49999.

Definition CMD_START : Z := 0x7E.
Definition CMD_STOP : Z := 0x7E.

Definition SCB_ADDRESS : Z := 0x3D.
Definition SSU_ADDRESS : Z := 0x00.
Definition PMB_START_ADDRESS : Z := 0x01.
Definition PMB_END_ADDRESS : Z := 0x1C.

Definition CMD_GET_DEV_DATA : Z := 0x00.
Definition CMD_GET_SCB_DATA : Z := 0x01.
Definition CMD_GET_STRING_DATA : Z := 0x02.
Definition CMD_DCDC_PASSTHROUGH : Z := 0x19.

(** [build_command(can_addr, cmd_id, data)] *)
Definition build_command (can_addr cmd_id : Z) (data : bytes) : outcome bytes :=
  hdr <- bytes_of_ints [0x00; can_addr; cmd_id] ;;
  let payload := hdr ++ data in
  let length := len payload in
  start <- bytes_of_ints [CMD_START] ;;
  packed <- struct_pack_H length ;;
  stop <- bytes_of_ints [CMD_STOP] ;;
  Ok (start ++ packed ++ payload ++ stop).

(** The dictionary returned by [parse_response]. *)
Record Response : Type := mkResponse {
  r_length : Z;
  r_type : Z;
  r_can_addr : Z;
  r_cmd_id : Z;
  r_payload : bytes;
  r_raw : bytes
}.

(** [parse_response(data)]; the marker test is Python's short-circuit [or]. *)
Definition parse_response (data : bytes) : outcome (option Response) :=
  if len data <? 6 then Ok None else
  first <- getitem data 0 ;;
  bad <- (if negb (first =? CMD_START) then Ok true
          else last <- getitem data (-1) ;; Ok (negb (last =? CMD_STOP))) ;;
  if (bad : bool) then Ok None else
  length <- struct_unpack_H (slice data 1 3) ;;
  ty <- getitem data 3 ;;
  addr <- getitem data 4 ;;
  cmd <- getitem data 5 ;;
  let payload := if len data >? 7 then slice data 6 (-1) else [] in
  Ok (Some (mkResponse length ty addr cmd payload data)).

(** ** Python [float]: IEEE 754 binary64 with round-to-nearest-even

    Only what [TestResult.success_rate] uses is modelled: true division of two
    ints, conversion of an int, multiplication and the order.  A finite float
    is represented by its exact rational value (so [-0.0] and [0.0] are one
    value, which no comparison separates in Python either). *)

Module Float64.

Local Open Scope Q_scope.

Inductive float : Type :=
| Fin (q : Q)
| PInf
| NInf
| NaN.

Definition pow2 (e : Z) : Q := 2 ^ e.

(** [floor (log2 x)] for a positive rational [x]. *)
Definition ilog2 (x : Q) : Z :=
  let k := (Z.log2 (Qnum x) - Z.log2 (Zpos (Qden x)))%Z in
  if Qle_bool (pow2 k) x then k else (k - 1)%Z.

(** Nearest integer, ties to even. *)
Definition round_half_even (y : Q) : Z :=
  let f := Qfloor y in
  match ((y - inject_Z f) ?= (1 # 2))%Q with
  | Lt => f
  | Gt => (f + 1)%Z
  | Eq => if Z.even f then f else (f + 1)%Z
  end.

(** Exponent of the last place of the binary64 nearest [x]: 53 significant
    bits, and never below the subnormal exponent [-1074]. *)
Definition fexp (x : Q) : Z := Z.max (ilog2 (Qabs x) - 52) (-1074).

(** The multiple of [2 ^ fexp x] nearest to [x], ties to the even multiple. *)
Definition nearest (x : Q) : Q :=
  let e := fexp x in
  inject_Z (round_half_even (x / pow2 e)) * pow2 e.

(** Beyond the largest finite float a rounded value becomes an infinity. *)
Definition overflow (r : Q) : float :=
  if Qle_bool (pow2 1024) r then PInf
  else if Qle_bool r (- pow2 1024) then NInf
  else Fin r.

(** The rational [x] rounded to binary64. *)
Definition round (x : Q) : float :=
  if Qeq_bool x 0 then Fin 0 else overflow (nearest x).

(** [a / b] on ints: the correctly rounded quotient. *)
Definition int_truediv (a b : Z) : outcome float :=
  if (b =? 0)%Z then Raise ZeroDivisionError else
  match round (inject_Z a / inject_Z b) with
  | Fin q => Ok (Fin q)
  | _ => Raise OverflowError
  end.

(** [float(k)] for an int [k]. *)
Definition float_of_int (k : Z) : outcome float :=
  match round (inject_Z k) with
  | Fin q => Ok (Fin q)
  | _ => Raise OverflowError
  end.

(** [x * y] on floats. *)
Definition fmul (x y : float) : float :=
  match x, y with
  | NaN, _ | _, NaN => NaN
  | Fin a, Fin b => round (a * b)
  | Fin a, PInf | PInf, Fin a =>
      match (a ?= 0)%Q with Eq => NaN | Gt => PInf | Lt => NInf end
  | Fin a, NInf | NInf, Fin a =>
      match (a ?= 0)%Q with Eq => NaN | Gt => NInf | Lt => PInf end
  | PInf, PInf | NInf, NInf => PInf
  | PInf, NInf | NInf, PInf => NInf
  end.

(** [x <= y] on floats. *)
Definition fle (x y : float) : bool :=
  match x, y with
  | NaN, _ | _, NaN => false
  | NInf, _ | _, PInf => true
  | Fin a, Fin b => Qle_bool a b
  | PInf, _ | _, NInf => false
  end.

End Float64.

Import Float64.

(** ** [ilc_test_common.py]: test result tracking *)

(** [datetime] values are time stamps on the same clock as [time.time()]. *)
Record TestResult : Type := mkTestResult {
  test_name : string;
  start_time : Q;
  end_time : option Q;
  requests_sent : Z;
  responses_received : Z;
  errors : list string;
  timeouts : Z;
  connection_failures : Z;
  device_unresponsive_events : Z;
  possible_crashes : Z
}.

(** The dataclass constructor with its defaults. *)
Definition new_TestResult (name : string) (start : Q) : TestResult :=
  mkTestResult name start None 0 0 [] 0 0 0 0.

(** [TestResult.success_rate] *)
Definition success_rate (self : TestResult) : outcome float :=
  if requests_sent self =? 0 then Ok (Fin 0)
  else
    q <- int_truediv (responses_received self) (requests_sent self) ;;
    hundred <- float_of_int 100 ;;
    Ok (fmul q hundred).

(** [TestResult.duration_seconds] *)
Definition duration_seconds (self : TestResult) : Q :=
  match end_time self with
  | Some e => (e - start_time self)%Q
  | None => 0%Q
  end.

(** The dictionary built by [TestResult.to_dict]. *)
Record ResultDict : Type := mkResultDict {
  d_test_name : string;
  d_start_time : Q;
  d_end_time : option Q;
  d_duration_seconds : Q;
  d_requests_sent : Z;
  d_responses_received : Z;
  d_success_rate_percent : float;
  d_timeouts : Z;
  d_connection_failures : Z;
  d_device_unresponsive_events : Z;
  d_possible_crashes : Z;
  d_errors : list string
}.

(** [TestResult.to_dict]; the last entry is [self.errors[-20:]]. *)
Definition to_dict (self : TestResult) : outcome ResultDict :=
  rate <- success_rate self ;;
  Ok (mkResultDict
        (test_name self) (start_time self) (end_time self)
        (duration_seconds self)
        (requests_sent self) (responses_received self) rate
        (timeouts self) (connection_failures self)
        (device_unresponsive_events self) (possible_crashes self)
        (slice_from (errors self) (-20))).

(** Field updates performed on a [TestResult] by the harness. *)
Definition add_requests_sent (n : Z) (r : TestResult) : TestResult :=
  mkTestResult (test_name r) (start_time r) (end_time r)
    (requests_sent r + n) (responses_received r) (errors r) (timeouts r)
    (connection_failures r) (device_unresponsive_events r) (possible_crashes r).

Definition add_responses_received (n : Z) (r : TestResult) : TestResult :=
  mkTestResult (test_name r) (start_time r) (end_time r)
    (requests_sent r) (responses_received r + n) (errors r) (timeouts r)
    (connection_failures r) (device_unresponsive_events r) (possible_crashes r).

Definition add_device_unresponsive_events (n : Z) (r : TestResult) : TestResult :=
  mkTestResult (test_name r) (start_time r) (end_time r)
    (requests_sent r) (responses_received r) (errors r) (timeouts r)
    (connection_failures r) (device_unresponsive_events r + n) (possible_crashes r).

Definition add_possible_crashes (n : Z) (r : TestResult) : TestResult :=
  mkTestResult (test_name r) (start_time r) (end_time r)
    (requests_sent r) (responses_received r) (errors r) (timeouts r)
    (connection_failures r) (device_unresponsive_events r) (possible_crashes r + n).


(** [result.errors.append(msg)], the list operation by which a test script
    adds an entry to the error log. *)
Definition errors_append (msg : string) (r : TestResult) : TestResult :=
  mkTestResult (test_name r) (start_time r) (end_time r)
    (requests_sent r) (responses_received r) (errors r ++ [msg]) (timeouts r)
    (connection_failures r) (device_unresponsive_events r) (possible_crashes r).

(** A sequence of appends, first message first. *)
Definition errors_extend (msgs : list string) (r : TestResult) : TestResult :=
  fold_left (fun acc msg => errors_append msg acc) msgs r.

(** ** The outside world: clock, network, interrupt

    [run_result] is what running a piece of harness code produces: a value, a
    Python exception, or [OutOfFuel] when a clock-governed loop was cut. *)

Inductive run_result (A : Type) : Type :=
| Val (a : A)
| Exc (e : exn)
| OutOfFuel.

Arguments Val {A} a.
Arguments Exc {A} e.
Arguments OutOfFuel {A}.

(** State-and-exception monad over a state [S]. *)
Definition M (S A : Type) : Type := S -> run_result A * S.

Definition ret {S A : Type} (a : A) : M S A := fun s => (Val a, s).

Definition mbind {S A B : Type} (m : M S A) (k : A -> M S B) : M S B :=
  fun s =>
    match m s with
    | (Val a, s') => k a s'
    | (Exc e, s') => (Exc e, s')
    | (OutOfFuel, s') => (OutOfFuel, s')
    end.

Definition out_of_fuel {S A : Type} : M S A := fun s => (OutOfFuel, s).

(** A pure computation that may raise, run inside [M]. *)
Definition of_outcome {S A : Type} (o : outcome A) : M S A :=
  fun s => match o with Ok a => (Val a, s) | Raise e => (Exc e, s) end.

Notation "x <~ m ;; k" := (mbind m (fun x => k))
  (at level 61, m at next level, right associativity).
Notation "m ;;; k" := (mbind m (fun _ => k))
  (at level 61, right associativity).

(** What the instrumentation records: a unit of attack traffic (one loop
    iteration or one batch of worker threads of the named attack), and every
    assignment to [crash_detected] after construction, with the method stored
    next to it. *)
Inductive event : Type :=
| EvAttack (name : string)
| EvCrashSet (method : string).

(** [trace] has the most recent event first. *)
Record World : Type := mkWorld {
  now : Q;
  tick : nat;
  trace : list event
}.

(** The oracles.  Each interaction with the outside consumes one tick.
    - [probe n ip timeout cmd]: the bytes [recv] returns in the liveness
      exchange started at tick [n], or [None] when one of its socket calls
      raised;
    - [elapsed n]: how long the interaction at tick [n] took;
    - [stop_flag n]: the global [stop_flag] as read at tick [n];
    - [io_ok n]: whether the socket call at tick [n] succeeded;
    - [workers n]: how many times the worker threads started at tick [n]
      bumped [requests_sent] and [responses_received] before being joined. *)
Record Env : Type := mkEnv {
  probe : nat -> string -> Q -> bytes -> option bytes;
  elapsed : nat -> Q;
  stop_flag : nat -> bool;
  io_ok : nat -> bool;
  workers : nat -> N * N
}.

Definition Qltb (x y : Q) : bool :=
  match (x ?= y)%Q with Lt => true | _ => false end.

(** [time.time()] *)
Definition time_time : M World Q := fun w => (Val (now w), w).

(** [time.sleep(d)]: [ValueError] for a negative [d]. *)
Definition time_sleep (d : Q) : M World unit :=
  fun w =>
    if Qltb d 0 then (Exc ValueError, w)
    else (Val tt, mkWorld (now w + d)%Q (tick w) (trace w)).

Definition log (e : event) : M World unit :=
  fun w => (Val tt, mkWorld (now w) (tick w) (e :: trace w)).

Section Harness.

Variable env : Env.

(** One interaction with the outside: its answer, and the clock moved on. *)
Definition interact {A : Type} (answer : nat -> A) : M World A :=
  fun w =>
    (Val (answer (tick w)),
     mkWorld (now w + elapsed env (tick w))%Q (S (tick w)) (trace w)).

(** Reading the global [stop_flag]. *)
Definition read_stop_flag : M World bool :=
  fun w => (Val (stop_flag env (tick w)), mkWorld (now w) (S (tick w)) (trace w)).

(** ** [ilc_test_common.py]: device health check *)

(** [check_device_alive(scb_ip, timeout)]: everything happens inside one
    [try]; any exception gives [False]. *)
Definition check_device_alive (scb_ip : string) (timeout : Q) : M World bool :=
  match build_command SCB_ADDRESS CMD_GET_SCB_DATA [] with
  | Raise _ => interact (fun _ => false)
  | Ok cmd =>
      interact (fun n =>
        match probe env n scb_ip timeout cmd with
        | Some response => 0 <? len response
        | None => false
        end)
  end.

(** The [while] loop of [wait_for_device]. *)
Fixpoint wait_for_device_loop (fuel : nat) (scb_ip : string)
    (end_time check_interval : Q) : M World bool :=
  match fuel with
  | O => out_of_fuel
  | S fuel' =>
      t <~ time_time ;;
      if Qltb t end_time then
        alive <~ check_device_alive scb_ip 2 ;;
        if (alive : bool) then ret true
        else
          time_sleep check_interval ;;;
          wait_for_device_loop fuel' scb_ip end_time check_interval
      else ret false
  end.

(** [wait_for_device(scb_ip, timeout, check_interval)].  The deadline is the
    exact sum of the clock and the timeout; the code adds the two as binary64
    floats and reads the clock a second time for its first test, which can
    differ from this for a timeout below the resolution of the clock.  The
    loop above takes the deadline as it was computed. *)
Definition wait_for_device (fuel : nat) (scb_ip : string)
    (timeout check_interval : Q) : M World bool :=
  t <~ time_time ;;
  let end_time := (t + timeout)%Q in
  wait_for_device_loop fuel scb_ip end_time check_interval.

(** ** [test_crash.py] *)

Definition MAX_CLIENTS : Z := 5.

Record CrashTester : Type := mkCrashTester {
  scb_ip : string;
  crash_detected : bool;
  crash_method : option string;
  result : TestResult
}.

(** The state a method of [CrashTester] runs in: the object and the world. *)
Definition Run : Type := (CrashTester * World)%type.

Definition lift {A : Type} (m : M World A) : M Run A :=
  fun s => let '(r, w') := m (snd s) in (r, (fst s, w')).

Definition self_get {A : Type} (f : CrashTester -> A) : M Run A :=
  fun s => (Val (f (fst s)), s).

Definition self_result_update (f : TestResult -> TestResult) : M Run unit :=
  fun s =>
    let t := fst s in
    (Val tt,
     (mkCrashTester (scb_ip t) (crash_detected t) (crash_method t) (f (result t)),
      snd s)).

(** [self.crash_detected = True; self.crash_method = method], recorded in the
    trace. *)
Definition self_set_crash (method : string) : M Run unit :=
  fun s =>
    let t := fst s in
    let w := snd s in
    (Val tt,
     (mkCrashTester (scb_ip t) true (Some method) (result t),
      mkWorld (now w) (tick w) (EvCrashSet method :: trace w))).


(** [CrashTester.check_for_crash(method_name)] *)
Definition check_for_crash (fuel : nat) (method_name : string) : M Run bool :=
  ip <~ self_get scb_ip ;;
  alive <~ lift (check_device_alive ip 3) ;;
  if negb alive then
    self_result_update (add_device_unresponsive_events 1) ;;;
    recovered <~ lift (wait_for_device fuel ip 60 2) ;;
    if (recovered : bool) then
      self_set_crash method_name ;;;
      self_result_update (add_possible_crashes 1) ;;;
      ret true
    else
      self_set_crash (method_name ++ " (no recovery)") ;;;
      self_result_update (add_possible_crashes 1) ;;;
      ret true
  else ret false.

(** [range(n)] *)
Definition range (n : Z) : list Z := map Z.of_nat (seq 0 (Z.to_nat n)).

(** Socket calls.  A handle is the tick at which the socket was connected;
    the outcome of a call is the oracle's answer at its own tick. *)
Definition socket : Type := nat.

Definition sock_connect (ip : string) (timeout : Q) : M World (option socket) :=
  fun w =>
    let '(r, w') := interact (io_ok env) w in
    match r with
    | Val true => (Val (Some (tick w)), w')
    | Val false => (Val None, w')
    | Exc e => (Exc e, w')
    | OutOfFuel => (OutOfFuel, w')
    end.

Definition sock_send (s : socket) (data : bytes) : M World bool :=
  interact (io_ok env).

Definition sock_close (s : socket) : M World bool :=
  interact (io_ok env).

(** The worker threads of an attack, from [start] to the last [join], taken
    as one step: the oracle says how long they ran and how often they bumped
    the two counters.  [looping] tells whether their [while] loops are entered
    at all; no thread writes [crash_detected]. *)
Definition run_workers (name : string) (looping count_responses : bool)
  : M Run unit :=
  lift (log (EvAttack name)) ;;;
  bumps <~ lift (interact (workers env)) ;;
  if looping then
    self_result_update (add_requests_sent (Z.of_N (fst bumps))) ;;;
    if count_responses
    then self_result_update (add_responses_received (Z.of_N (snd bumps)))
    else ret tt
  else ret tt.

(** [CrashTester.attack_concurrent_flood(duration, num_sockets)]: each of the
    [num_sockets] workers connects and then floods until [duration] has
    passed; the flood workers do not look at [crash_detected]. *)
Definition attack_concurrent_flood (fuel : nat) (duration : Q) (num_sockets : Z)
  : M Run bool :=
  cmd <~ of_outcome (build_command SCB_ADDRESS CMD_GET_SCB_DATA []) ;;
  (if 0 <? num_sockets
   then run_workers "concurrent_flood" (Qltb 0 duration) true
   else ret tt) ;;;
  check_for_crash fuel "concurrent_flood".

(** [for j in range(n): try: connect, append; except: pass] *)
Fixpoint open_sockets (n : nat) (ip : string) (timeout : Q) : M World (list socket) :=
  match n with
  | O => ret []
  | S n' =>
      s <~ sock_connect ip timeout ;;
      rest <~ open_sockets n' ip timeout ;;
      ret (match s with Some h => h :: rest | None => rest end)
  end.

(** [for sock in sockets: try: send, requests_sent += 1; except: pass] *)
Fixpoint send_on_all (sockets : list socket) (cmd : bytes) : M Run unit :=
  match sockets with
  | [] => ret tt
  | s :: rest =>
      ok <~ lift (sock_send s cmd) ;;
      (if (ok : bool) then self_result_update (add_requests_sent 1) else ret tt) ;;;
      send_on_all rest cmd
  end.

(** [for sock in sockets: try: close; except: pass] *)
Fixpoint close_all (sockets : list socket) : M World unit :=
  match sockets with
  | [] => ret tt
  | s :: rest => sock_close s ;;; close_all rest
  end.

(** Body of one iteration of the connection-overflow loop, up to the periodic
    check.  [random.shuffle] reorders the handles; a call's outcome is the
    oracle's answer at its tick whichever handle it is made on, so the order
    is left as it is. *)
Definition connection_overflow_body (cmd : bytes) : M Run unit :=
  lift (log (EvAttack "connection_overflow")) ;;;
  ip <~ self_get scb_ip ;;
  sockets <~ lift (open_sockets (Z.to_nat (MAX_CLIENTS + 3)) ip (1 # 2)) ;;
  send_on_all sockets cmd ;;;
  lift (close_all sockets).

(** The [for i in range(iterations)] loop of [attack_connection_overflow];
    [Some b] when the loop was left by [return b], [None] when it ended or was
    left by [break]. *)
Fixpoint connection_overflow_loop (fuel : nat) (cmd : bytes) (idx : list Z)
  : M Run (option bool) :=
  match idx with
  | [] => ret None
  | i :: idx' =>
      stop <~ lift read_stop_flag ;;
      detected <~ self_get crash_detected ;;
      if (stop : bool) || detected then ret None
      else
        connection_overflow_body cmd ;;;
        if (0 <? i) && (i mod 10 =? 0) then
          crashed <~ check_for_crash fuel "connection_overflow" ;;
          if (crashed : bool) then ret (Some true)
          else connection_overflow_loop fuel cmd idx'
        else connection_overflow_loop fuel cmd idx'
  end.

(** [CrashTester.attack_connection_overflow(iterations)] *)
Definition attack_connection_overflow (fuel : nat) (iterations : Z) : M Run bool :=
  cmd <~ of_outcome (build_command SCB_ADDRESS CMD_GET_SCB_DATA []) ;;
  left <~ connection_overflow_loop fuel cmd (range iterations) ;;
  match left with
  | Some b => ret b
  | None => check_for_crash fuel "connection_overflow"
  end.

(** Body of one iteration of the rapid-reconnect loop: connect, send the
    first half of the frame, close; the first failure skips the rest. *)
Definition rapid_reconnect_body (cmd : bytes) : M Run unit :=
  lift (log (EvAttack "rapid_reconnect")) ;;;
  ip <~ self_get scb_ip ;;
  s <~ lift (sock_connect ip (3 # 10)) ;;
  match s with
  | None => ret tt
  | Some h =>
      ok <~ lift (sock_send h (slice cmd 0 (len cmd / 2))) ;;
      if (ok : bool) then
        self_result_update (add_requests_sent 1) ;;;
        lift (sock_close h) ;;;
        ret tt
      else ret tt
  end.

Fixpoint rapid_reconnect_loop (fuel : nat) (cmd : bytes) (idx : list Z)
  : M Run (option bool) :=
  match idx with
  | [] => ret None
  | i :: idx' =>
      stop <~ lift read_stop_flag ;;
      detected <~ self_get crash_detected ;;
      if (stop : bool) || detected then ret None
      else
        rapid_reconnect_body cmd ;;;
        if (0 <? i) && (i mod 25 =? 0) then
          crashed <~ check_for_crash fuel "rapid_reconnect" ;;
          if (crashed : bool) then ret (Some true)
          else rapid_reconnect_loop fuel cmd idx'
        else rapid_reconnect_loop fuel cmd idx'
  end.

(** [CrashTester.attack_rapid_reconnect(iterations)] *)
Definition attack_rapid_reconnect (fuel : nat) (iterations : Z) : M Run bool :=
  cmd <~ of_outcome (build_command SCB_ADDRESS CMD_GET_SCB_DATA []) ;;
  left <~ rapid_reconnect_loop fuel cmd (range iterations) ;;
  match left with
  | Some b => ret b
  | None => check_for_crash fuel "rapid_reconnect"
  end.

(** [CrashTester.attack_combined_stress(duration)]: each of the four workers
    tests the deadline and [self.crash_detected] before every round of
    traffic, and only [requests_sent] is bumped. *)
Definition attack_combined_stress (fuel : nat) (duration : Q) : M Run bool :=
  cmd <~ of_outcome (build_command SCB_ADDRESS CMD_GET_SCB_DATA []) ;;
  large_cmd <~ of_outcome (build_command SCB_ADDRESS CMD_GET_SCB_DATA
                             (repeat xaa 1500)) ;;
  detected <~ self_get crash_detected ;;
  (if (detected : bool) || negb (Qltb 0 duration) then ret tt
   else run_workers "combined_stress" true false) ;;;
  check_for_crash fuel "combined_stress".

(** [attack_sequence] of [run_crash_test] *)
Definition attack_sequence (fuel : nat) : list (M Run bool) :=
  [ attack_concurrent_flood fuel 10 5;
    attack_connection_overflow fuel 30;
    attack_rapid_reconnect fuel 50;
    attack_combined_stress fuel 15 ].

(** [for attack_func in attack_sequence: ...] of one round. *)
Fixpoint run_attacks (attacks : list (M Run bool)) (end_time : Q) : M Run unit :=
  match attacks with
  | [] => ret tt
  | attack_func :: rest =>
      stop <~ lift read_stop_flag ;;
      detected <~ self_get crash_detected ;;
      t <~ lift time_time ;;
      if (stop : bool) || detected || negb (Qltb t end_time) then ret tt
      else
        crashed <~ attack_func ;;
        if (crashed : bool) then ret tt else run_attacks rest end_time
  end.

(** The round loop of [run_crash_test]. *)
Fixpoint round_loop (fuel : nat) (attacks : list (M Run bool)) (end_time : Q)
  : M Run unit :=
  match fuel with
  | O => out_of_fuel
  | S fuel' =>
      t <~ lift time_time ;;
      if Qltb t end_time then
        stop <~ lift read_stop_flag ;;
        if (stop : bool) then ret tt
        else
          detected <~ self_get crash_detected ;;
          if (detected : bool) then ret tt
          else
            run_attacks attacks end_time ;;;
            detected' <~ self_get crash_detected ;;
            (if (detected' : bool) then ret tt else lift (time_sleep 2)) ;;;
            round_loop fuel' attacks end_time
      else ret tt
  end.


End Harness.

(** ** Vocabulary of the statements *)

(** The liveness frame, [build_command(SCB_ADDRESS, CMD_GET_SCB_DATA)]. *)
Definition probe_frame : bytes := [x7e; x03; x00; x00; x3d; x01; x7e].

(** Whether the liveness exchange started at tick [n] receives any byte. *)
Definition answers (env : Env) (n : nat) (ip : string) (timeout : Q) : bool :=
  match probe env n ip timeout probe_frame with
  | Some response => 0 <? len response
  | None => false
  end.

(** The world after one interaction. *)
Definition after_interaction (env : Env) (w : World) : World :=
  mkWorld (now w + elapsed env (tick w))%Q (S (tick w)) (trace w).

(** The tester after a crash verdict for [method]. *)
Definition with_verdict (method : string) (t : CrashTester) : CrashTester :=
  mkCrashTester (scb_ip t) true (Some method)
    (add_possible_crashes 1 (add_device_unresponsive_events 1 (result t))).

Definition record_crash (method : string) (w : World) : World :=
  mkWorld (now w) (tick w) (EvCrashSet method :: trace w).

Definition is_crash_event (e : event) : bool :=
  match e with EvCrashSet _ => true | EvAttack _ => false end.

(** A device that is down: no socket call succeeds, and every interaction
    takes two and a half seconds to fail (a liveness exchange whose connection
    is accepted after half a second and whose reply times out after two). *)
Definition dead_device : Env :=
  mkEnv (fun _ _ _ _ => None) (fun _ => 5 # 2)%Q (fun _ => false)
        (fun _ => false) (fun _ => (0%N, 0%N)).

(** A device that misses one liveness probe (tick [down]) and answers all
    the others with a one-byte reply after a tenth of a second. *)
Definition blinking_device (down : nat) : Env :=
  mkEnv (fun n _ _ _ => if Nat.eqb n down then None else Some [x7e])
        (fun _ => 1 # 10)%Q (fun _ => false)
        (fun _ => true) (fun _ => (3%N, 2%N)).

Definition lab_ip : string := "192.168.1.100".

Definition world0 : World := mkWorld 0 0 [].

(** A Hoare triple on the monad: from a state satisfying [P], running [m]
    leaves a result and a state related by [Q]. *)
Definition triple {S A : Type} (P : S -> Prop) (m : M S A)
    (Q : run_result A -> S -> Prop) : Prop :=
  forall s, P s -> Q (fst (m s)) (snd (m s)).

(** A postcondition that ignores the result. *)
Definition always {S A : Type} (I : S -> Prop) : run_result A -> S -> Prop :=
  fun _ s => I s.

(** A computation on the world that leaves the trace alone. *)
Definition keeps_trace {A : Type} (m : M World A) : Prop :=
  forall w, trace (snd (m w)) = trace w.

(** A property of the crash flag and the trace of a running tester. *)
Definition holds (J : bool -> list event -> Prop) (s : Run) : Prop :=
  J (crash_detected (fst s)) (trace (snd s)).

Definition no_crash_event (tr : list event) : Prop :=
  forallb (fun e => negb (is_crash_event e)) tr = true.

(** No crash so far: the flag is down and was never written. *)
Definition no_crash_yet (flag : bool) (tr : list event) : Prop :=
  flag = false /\ no_crash_event tr.

(** Crash detected and nothing since: the flag is up and its one assignment
    is the most recent event. *)
Definition crash_is_latest (flag : bool) (tr : list event) : Prop :=
  flag = true
  /\ exists method older, tr = EvCrashSet method :: older /\ no_crash_event older.


Definition clean : Run -> Prop := holds no_crash_yet.

Definition crashed : Run -> Prop := holds crash_is_latest.

(** Postcondition of a call that reports a crash by returning [True]. *)
Definition verdict (r : run_result bool) (s : Run) : Prop :=
  match r with
  | Val true => crashed s
  | _ => clean s
  end.

Definition verdict_opt (r : run_result (option bool)) (s : Run) : Prop :=
  match r with
  | Val (Some true) => crashed s
  | _ => clean s
  end.



(** A tester as [CrashTester.__init__] leaves it. *)
Definition fresh_tester : CrashTester :=
  mkCrashTester lab_ip false None (new_TestResult "crash_test" 0).

(** [k] is an integer nearest to [y], the even one when there are two. *)
Definition nearest_even (y : Q) (k : Z) : Prop :=
  ((- (1 # 2) < y - inject_Z k /\ y - inject_Z k < 1 # 2)
   \/ ((y - inject_Z k == 1 # 2 \/ inject_Z k - y == 1 # 2) /\ Z.even k = true))%Q.

(** ** [ilc_test_common.py]: [send_command] *)

(** A connected socket, as far as [send_command] uses it: the bytes the peer
    has delivered when [recv] is called after [send(cmd)], in the exchange
    started at tick [n], or [None] when one of the two calls raises. *)
Definition connection : Type := nat -> bytes -> option bytes.

(** [sock.recv(bufsize)] on the bytes delivered: at most [bufsize] of them,
    from the front. *)
Definition recv (bufsize : Z) (delivered : bytes) : bytes :=
  firstn (Z.to_nat bufsize) delivered.

(** [send_command(sock, cmd)]: the reply is read with [recv(4096)],
    [if response:] is true of a non-empty byte string, and the bare [except]
    turns every exception into [None]. *)
Definition send_command (env : Env) (sock : connection) (cmd : bytes)
  : M World (option Response) :=
  reply <~ interact env (fun n => sock n cmd) ;;
  ret (match reply with
       | Some delivered =>
           let response := recv 4096 delivered in
           if 0 <? len response then
             match parse_response response with
             | Ok parsed => parsed
             | Raise _ => None
             end
           else None
       | None => None
       end).

(** ** More vocabulary *)

(** The world after [k] liveness polls of [wait_for_device] that got no
    answer, each followed by the pause [interval]. *)
Fixpoint after_failed_polls (env : Env) (interval : Q) (k : nat) (w : World)
  : World :=
  match k with
  | O => w
  | S k' =>
      after_failed_polls env interval k'
        (mkWorld (now w + elapsed env (tick w) + interval)%Q (S (tick w)) (trace w))
  end.

(** The names under which the four attacks call [check_for_crash]. *)
Definition attack_names : list string :=
  [ "concurrent_flood"; "connection_overflow"; "rapid_reconnect";
    "combined_stress" ]%string.

(** The method stored with a verdict. *)
Definition verdict_method (name : string) (recovered : bool) : string :=
  if recovered then name else (name ++ " (no recovery)")%string.

(** [w'] comes from [w] by interactions, reads of the stop flag and sleeps:
    the clock and the tick move, the trace does not. *)
Inductive advances (env : Env) : World -> World -> Prop :=
| advances_refl (w : World) : advances env w w
| advances_interact (w w' : World) :
    advances env (after_interaction env w) w' -> advances env w w'
| advances_tick (w w' : World) :
    advances env (mkWorld (now w) (S (tick w)) (trace w)) w' -> advances env w w'
| advances_sleep (d : Q) (w w' : World) :
    (0 <= d)%Q ->
    advances env (mkWorld (now w + d)%Q (tick w) (trace w)) w' ->
    advances env w w'.

(** A computation on the world that only lets it advance. *)
Definition moves_on (env : Env) {A : Type} (m : M World A) : Prop :=
  forall w, advances env w (snd (m w)).

(** The tester with its result record updated. *)
Definition with_result (f : TestResult -> TestResult) (t : CrashTester)
  : CrashTester :=
  mkCrashTester (scb_ip t) (crash_detected t) (crash_method t) (f (result t)).

(** Number of assignments to [crash_detected] recorded in a trace. *)
Definition count_crash_events (tr : list event) : Z :=
  len (filter is_crash_event tr).

(** Between two states of a tester: nothing but the counters, the flag and
    the method has changed, and no counter has gone down. *)
Definition bookkeeping_kept (t0 t : CrashTester) : Prop :=
  scb_ip t = scb_ip t0
  /\ test_name (result t) = test_name (result t0)
  /\ start_time (result t) = start_time (result t0)
  /\ end_time (result t) = end_time (result t0)
  /\ errors (result t) = errors (result t0)
  /\ timeouts (result t) = timeouts (result t0)
  /\ connection_failures (result t) = connection_failures (result t0)
  /\ requests_sent (result t0) <= requests_sent (result t)
  /\ responses_received (result t0) <= responses_received (result t)
  /\ device_unresponsive_events (result t0) <= device_unresponsive_events (result t)
  /\ possible_crashes (result t0) <= possible_crashes (result t).

(** [possible_crashes] counts the verdicts: between two states it has grown
    by the number of assignments to the flag recorded meanwhile, which is at
    most the number of unanswered probes counted; and once there was such an
    assignment the flag is up and the method is an attack name, qualified or
    not. *)
Definition verdicts_accounted (s0 s : Run) : Prop :=
  let grown := count_crash_events (trace (snd s))
               - count_crash_events (trace (snd s0)) in
  0 <= grown
  /\ possible_crashes (result (fst s)) = possible_crashes (result (fst s0)) + grown
  /\ device_unresponsive_events (result (fst s0)) + grown
     <= device_unresponsive_events (result (fst s))
  /\ (0 < grown ->
      crash_detected (fst s) = true
      /\ exists name recovered,
           In name attack_names
           /\ crash_method (fst s) = Some (verdict_method name recovered))
  /\ (grown = 0 ->
      crash_detected (fst s) = crash_detected (fst s0)
      /\ crash_method (fst s) = crash_method (fst s0)).


(** [R] relates the state before and the state after each of the four
    attacks and the round loop of [run_crash_test], whatever they return. *)
Definition across_attacks_and_rounds (env : Env) (fuel : nat) (end_time : Q)
    (R : Run -> Run -> Prop) : Prop :=
  forall (s : Run) (duration : Q) (n : Z),
    R s (snd (attack_concurrent_flood env fuel duration n s))
    /\ R s (snd (attack_connection_overflow env fuel n s))
    /\ R s (snd (attack_rapid_reconnect env fuel n s))
    /\ R s (snd (attack_combined_stress env fuel duration s))
    /\ R s (snd (round_loop env fuel (attack_sequence env fuel) end_time s)).

(** A computation that returns from every state: no exception, fuel left. *)
Definition halts {S A : Type} (m : M S A) : Prop :=
  forall s, exists a s', m s = (Val a, s').

(** Started on [s], the call returns a boolean that is the crash flag it
    leaves; a [True] comes with one assignment to the flag as the latest
    event, a [False] with none at all. *)
Definition reports_verdict (m : M Run bool) (s : Run) : Prop :=
  exists (b : bool) (s' : Run),
    m s = (Val b, s')
    /\ crash_detected (fst s') = b
    /\ if b
       then exists method older,
              trace (snd s') = EvCrashSet method :: older /\ no_crash_event older
       else no_crash_event (trace (snd s')).


(** Between two states of a tester: [requests_sent] has grown by [k] at
    most, and [responses_received] is as it was. *)
Definition sent_at_most (k : Z) (s0 s : Run) : Prop :=
  responses_received (result (fst s)) = responses_received (result (fst s0))
  /\ requests_sent (result (fst s0)) <= requests_sent (result (fst s))
     <= requests_sent (result (fst s0)) + k.

(** A computation that, whatever it returns, counts [k] requests at most and
    no response. *)
Definition spends {A : Type} (k : Z) (m : M Run A) : Prop :=
  forall s, sent_at_most k s (snd (m s)).

(** A device that answers every probe and accepts every socket call, each
    interaction taking a tenth of a second. *)
Definition healthy_device : Env :=
  mkEnv (fun _ _ _ _ => Some [x7e]) (fun _ => 1 # 10)%Q (fun _ => false)
        (fun _ => true) (fun _ => (3%N, 2%N)).

(** How many of the [n] socket calls made from tick [start] on succeed. *)
Definition count_ok (env : Env) (start n : nat) : nat :=
  List.length (filter (io_ok env) (seq start n)).

(** Started on [s], the computation returns [a], having counted exactly [k]
    requests and left the address and the flag of the tester alone. *)
Definition counted {A : Type} (k : Z) (a : A) (m : M Run A) (s : Run) : Prop :=
  exists s',
    m s = (Val a, s')
    /\ scb_ip (fst s') = scb_ip (fst s)
    /\ crash_detected (fst s') = crash_detected (fst s)
    /\ requests_sent (result (fst s')) = requests_sent (result (fst s)) + k.

(** *** Facts about the primitives *)

Lemma int_of_byte_range (b : byte) : 0 <= int_of_byte b <= 255.
Proof.
  unfold int_of_byte. pose proof (Byte.to_N_bounded b). lia.
Qed.

Lemma byte_of_int_of_byte (b : byte) : byte_of_int (int_of_byte b) = Ok b.
Proof.
  unfold byte_of_int. pose proof (int_of_byte_range b) as R.
  replace ((0 <=? int_of_byte b) && (int_of_byte b <? 256)) with true
    by (symmetry; apply andb_true_iff; split; [apply Z.leb_le|apply Z.ltb_lt]; lia).
  unfold int_of_byte. rewrite N2Z.id, Byte.of_to_N. reflexivity.
Qed.

Lemma byte_of_int_ok (z : Z) :
  0 <= z <= 255 -> exists b, byte_of_int z = Ok b /\ int_of_byte b = z.
Proof.
  intros R. unfold byte_of_int.
  replace ((0 <=? z) && (z <? 256)) with true
    by (symmetry; apply andb_true_iff; split; [apply Z.leb_le|apply Z.ltb_lt]; lia).
  destruct (Byte.of_N (Z.to_N z)) as [b|] eqn:E.
  - exists b. split; [reflexivity|].
    apply Byte.to_of_N in E. unfold int_of_byte. rewrite E. lia.
  - apply Byte.of_N_None_iff in E. lia.
Qed.

Lemma byte_of_int_raise (z : Z) :
  ~ 0 <= z <= 255 -> byte_of_int z = Raise ValueError.
Proof.
  intros R. unfold byte_of_int.
  destruct (0 <=? z) eqn:E1; destruct (z <? 256) eqn:E2; simpl; try reflexivity.
  apply Z.leb_le in E1. apply Z.ltb_lt in E2. lia.
Qed.

Lemma struct_pack_H_ok (n : Z) :
  0 <= n <= 65535 ->
  exists lo hi, struct_pack_H n = Ok [lo; hi]
                /\ int_of_byte lo + 256 * int_of_byte hi = n.
Proof.
  intros R. unfold struct_pack_H.
  replace ((0 <=? n) && (n <=? 65535)) with true
    by (symmetry; apply andb_true_iff; split; apply Z.leb_le; lia).
  destruct (byte_of_int_ok (n mod 256)) as (lo & Elo & Hlo).
  { pose proof (Z.mod_pos_bound n 256). lia. }
  destruct (byte_of_int_ok (n / 256)) as (hi & Ehi & Hhi).
  { split; [apply Z.div_pos; lia|].
    assert (n / 256 < 256) by (apply Z.div_lt_upper_bound; lia). lia. }
  exists lo, hi. rewrite Elo, Ehi. cbn [bind]. split; [reflexivity|].
  rewrite Hlo, Hhi. pose proof (Z.div_mod n 256 ltac:(lia)). lia.
Qed.

Lemma struct_pack_H_raise (n : Z) :
  ~ 0 <= n <= 65535 -> struct_pack_H n = Raise StructError.
Proof.
  intros R. unfold struct_pack_H.
  destruct (0 <=? n) eqn:E1; destruct (n <=? 65535) eqn:E2; simpl; try reflexivity.
  apply Z.leb_le in E1. apply Z.leb_le in E2. lia.
Qed.

Lemma len_app {A : Type} (l1 l2 : list A) : len (l1 ++ l2) = len l1 + len l2.
Proof. unfold len. rewrite length_app. lia. Qed.

Lemma len_nonneg {A : Type} (l : list A) : 0 <= len l.
Proof. unfold len. lia. Qed.

Lemma getitem_nonneg (b : bytes) (i : Z) :
  0 <= i < len b ->
  getitem b i = Ok (int_of_byte (nth (Z.to_nat i) b x00)).
Proof.
  intros R. unfold getitem.
  replace (i <? 0) with false by (symmetry; apply Z.ltb_ge; lia).
  replace ((0 <=? i) && (i <? len b)) with true
    by (symmetry; apply andb_true_iff; split; [apply Z.leb_le|apply Z.ltb_lt]; lia).
  reflexivity.
Qed.

Lemma getitem_last (b : bytes) :
  0 < len b ->
  getitem b (-1) = Ok (int_of_byte (nth (List.length b - 1) b x00)).
Proof.
  intros R. unfold getitem. change (-1 <? 0) with true. cbv beta iota zeta.
  replace ((0 <=? -1 + len b) && (-1 + len b <? len b)) with true
    by (symmetry; apply andb_true_iff; split; [apply Z.leb_le|apply Z.ltb_lt]; lia).
  replace (Z.to_nat (-1 + len b)) with (List.length b - 1)%nat
    by (unfold len in *; lia).
  reflexivity.
Qed.

Lemma int_of_byte_inj (a b : byte) : int_of_byte a = int_of_byte b -> a = b.
Proof.
  intros E. unfold int_of_byte in E. apply N2Z.inj in E.
  assert (H : Byte.of_N (Byte.to_N a) = Byte.of_N (Byte.to_N b)) by (rewrite E; reflexivity).
  rewrite !Byte.of_to_N in H. congruence.
Qed.

Lemma slice_bound_inside (n i : Z) : 0 <= i <= n -> slice_bound n i = i.
Proof.
  intros R. unfold slice_bound.
  replace (i <? 0) with false by (symmetry; apply Z.ltb_ge; lia). lia.
Qed.

Lemma slice_bound_from_end (n i : Z) :
  - n <= i < 0 -> slice_bound n i = i + n.
Proof.
  intros R. unfold slice_bound.
  replace (i <? 0) with true by (symmetry; apply Z.ltb_lt; lia). lia.
Qed.

Lemma slice_bound_below (n i : Z) : 0 <= n -> i < - n -> slice_bound n i = 0.
Proof.
  intros N R. unfold slice_bound.
  replace (i <? 0) with true by (symmetry; apply Z.ltb_lt; lia). lia.
Qed.

Lemma slice_1_3 (data : bytes) :
  3 <= len data -> slice data 1 3 = [nth 1 data x00; nth 2 data x00].
Proof.
  intros L. unfold slice.
  rewrite !slice_bound_inside by lia.
  destruct data as [|b0 [|b1 [|b2 rest]]]; cbn in L; try lia.
  reflexivity.
Qed.

Lemma slice_6_last (data : bytes) :
  7 <= len data -> slice data 6 (-1) = removelast (skipn 6 data).
Proof.
  intros L. unfold slice.
  rewrite (slice_bound_inside (len data) 6) by lia.
  rewrite (slice_bound_from_end (len data) (-1)) by lia.
  rewrite removelast_firstn_len, length_skipn.
  f_equal. unfold len in *. lia.
Qed.

Lemma removelast_short (data : bytes) :
  len data <= 7 -> removelast (skipn 6 data) = [].
Proof.
  intros L.
  destruct data as [|b0 [|b1 [|b2 [|b3 [|b4 [|b5 [|b6 [|b7 rest]]]]]]]];
    try reflexivity.
  unfold len in L. cbn in L. lia.
Qed.

Lemma marker_byte (b : byte) : (int_of_byte b =? 0x7E) = true <-> b = x7e.
Proof.
  rewrite Z.eqb_eq. split.
  - intros E. apply int_of_byte_inj. rewrite E. reflexivity.
  - intros ->. reflexivity.
Qed.

Lemma nth_of_nth_error (data : bytes) (i : nat) (b : byte) :
  nth_error data i = Some b -> nth i data x00 = b.
Proof. intros E. apply nth_error_nth. exact E. Qed.

Lemma nth_error_of_nth (data : bytes) (i : nat) :
  (i < List.length data)%nat -> nth_error data i = Some (nth i data x00).
Proof. intros L. apply nth_error_nth'. exact L. Qed.

(** What [parse_response] does on every input of at least six bytes, in terms
    of the two marker tests. *)
Lemma parse_response_long (data : bytes) :
  6 <= len data ->
  parse_response data =
    if negb (int_of_byte (nth 0 data x00) =? CMD_START)
       || negb (int_of_byte (nth (List.length data - 1) data x00) =? CMD_STOP)
    then Ok None
    else Ok (Some (mkResponse
                     (int_of_byte (nth 1 data x00)
                      + 256 * int_of_byte (nth 2 data x00))
                     (int_of_byte (nth 3 data x00))
                     (int_of_byte (nth 4 data x00))
                     (int_of_byte (nth 5 data x00))
                     (removelast (skipn 6 data))
                     data)).
Proof.
  intros L. unfold parse_response.
  replace (len data <? 6) with false by (symmetry; apply Z.ltb_ge; lia).
  rewrite (getitem_nonneg data 0) by lia. cbn [bind].
  change (Z.to_nat 0) with 0%nat.
  destruct (int_of_byte (nth 0 data x00) =? CMD_START); cbn [negb orb bind];
    [|reflexivity].
  rewrite getitem_last by lia. cbn [bind].
  destruct (int_of_byte (nth (List.length data - 1) data x00) =? CMD_STOP);
    cbn [negb]; [|reflexivity].
  rewrite slice_1_3 by lia. cbn [bind struct_unpack_H].
  rewrite (getitem_nonneg data 3), (getitem_nonneg data 4),
    (getitem_nonneg data 5) by lia.
  cbn [bind].
  change (Z.to_nat 3) with 3%nat. change (Z.to_nat 4) with 4%nat.
  change (Z.to_nat 5) with 5%nat.
  destruct (len data >? 7) eqn:G.
  - rewrite slice_6_last by lia. reflexivity.
  - rewrite removelast_short by lia. reflexivity.
Qed.

Lemma bytes_of_ints_header (a c : Z) :
  0 <= a <= 255 -> 0 <= c <= 255 ->
  exists ba bc, bytes_of_ints [0x00; a; c] = Ok [x00; ba; bc]
                /\ int_of_byte ba = a /\ int_of_byte bc = c.
Proof.
  intros Ra Rc.
  destruct (byte_of_int_ok a Ra) as (ba & Ea & Ha).
  destruct (byte_of_int_ok c Rc) as (bc & Ec & Hc).
  exists ba, bc. cbn [bytes_of_ints]. rewrite Ea, Ec. auto.
Qed.

(** The frame [build_command] returns whenever its three arguments fit. *)
Lemma build_command_frame (a c : Z) (p : bytes) :
  0 <= a <= 255 -> 0 <= c <= 255 -> len p <= 65532 ->
  exists lo hi ba bc,
    build_command a c p = Ok (x7e :: lo :: hi :: x00 :: ba :: bc :: p ++ [x7e])
    /\ int_of_byte lo + 256 * int_of_byte hi = 3 + len p
    /\ int_of_byte ba = a /\ int_of_byte bc = c.
Proof.
  intros Ra Rc Lp.
  destruct (bytes_of_ints_header a c Ra Rc) as (ba & bc & Eh & Ha & Hc).
  pose proof (len_nonneg p) as Np.
  destruct (struct_pack_H_ok (len ([x00; ba; bc] ++ p))) as (lo & hi & Ep & Hp).
  { rewrite len_app. change (len [x00; ba; bc]) with 3. lia. }
  exists lo, hi, ba, bc. unfold build_command.
  rewrite Eh. cbn [bind]. change (bytes_of_ints [CMD_START]) with (Ok [x7e]).
  cbn [bind]. rewrite Ep. cbn [bind].
  change (bytes_of_ints [CMD_STOP]) with (Ok [x7e]). cbn [bind].
  split; [reflexivity|]. split; [|auto].
  rewrite Hp, len_app. reflexivity.
Qed.

(** A payload that does not fit the 16-bit length field makes
    [struct.pack] raise. *)
Lemma build_command_too_long (a c : Z) (p : bytes) :
  0 <= a <= 255 -> 0 <= c <= 255 -> 65532 < len p ->
  build_command a c p = Raise StructError.
Proof.
  intros Ra Rc Lp.
  destruct (bytes_of_ints_header a c Ra Rc) as (ba & bc & Eh & _).
  unfold build_command. rewrite Eh. cbn [bind].
  change (bytes_of_ints [CMD_START]) with (Ok [x7e]). cbn [bind].
  rewrite struct_pack_H_raise; [reflexivity|].
  rewrite len_app. change (len [x00; ba; bc]) with 3. lia.
Qed.

(** An address or a command id outside [0..255] makes [bytes([...])] raise. *)
Lemma build_command_bad_int (a c : Z) (p : bytes) :
  ~ (0 <= a <= 255 /\ 0 <= c <= 255) ->
  build_command a c p = Raise ValueError.
Proof.
  intros R. unfold build_command. cbn [bytes_of_ints].
  change (byte_of_int 0) with (Ok x00). cbn [bind].
  assert (Da : 0 <= a <= 255 \/ ~ 0 <= a <= 255) by lia.
  destruct Da as [Ra | Ra].
  - destruct (byte_of_int_ok a Ra) as (ba & Ea & _). rewrite Ea. cbn [bind].
    rewrite byte_of_int_raise by lia. reflexivity.
  - rewrite byte_of_int_raise by lia. reflexivity.
Qed.

(** ** The frame codec *)

(** C1 (round trip).  For every destination address [a] and command id [c] in
    [0..255] and every payload [p] of at most 60000 bytes, [build_command]
    returns a frame, [parse_response] accepts that frame, and the parsed
    response has type 0, address [a], command id [c] and payload [p]. *)
Theorem build_parse_roundtrip (a c : Z) (p : bytes) :
  0 <= a <= 255 -> 0 <= c <= 255 -> 0 <= len p <= 60000 ->
  exists frame r,
    build_command a c p = Ok frame
    /\ parse_response frame = Ok (Some r)
    /\ r_type r = 0 /\ r_can_addr r = a /\ r_cmd_id r = c /\ r_payload r = p.
Proof.
  intros Ra Rc Lp.
  destruct (build_command_frame a c p Ra Rc) as (lo & hi & ba & bc & E & _ & Ha & Hc);
    [lia|].
  set (frame := x7e :: lo :: hi :: x00 :: ba :: bc :: p ++ [x7e]) in *.
  assert (Lf : len frame = 7 + len p).
  { unfold frame, len. cbn [List.length]. rewrite length_app. cbn [List.length]. lia. }
  assert (Last : nth (List.length frame - 1) frame x00 = x7e).
  { unfold frame. cbn [List.length]. rewrite Nat.sub_succ, Nat.sub_0_r.
    change (x7e :: lo :: hi :: x00 :: ba :: bc :: p ++ [x7e])
      with ([x7e; lo; hi; x00; ba] ++ (bc :: p ++ [x7e])).
    rewrite app_nth2 by (cbn [List.length]; lia).
    cbn [List.length].
    replace (S (S (S (S (S (List.length (p ++ [x7e])))))) - 5)%nat
      with (S (List.length p + 0)) by (rewrite length_app; cbn [List.length]; lia).
    cbn [nth]. rewrite app_nth2 by lia.
    replace (List.length p + 0 - List.length p)%nat with 0%nat by lia.
    reflexivity. }
  eexists frame, _. split; [exact E|].
  rewrite parse_response_long by lia.
  rewrite Last. cbn [nth frame]. change (int_of_byte x7e =? CMD_START) with true.
  change (int_of_byte x7e =? CMD_STOP) with true. cbn [negb orb].
  split; [reflexivity|]. cbn [r_type r_can_addr r_cmd_id r_payload].
  repeat split; auto.
  unfold frame. cbn [skipn]. apply removelast_last.
Qed.

Lemma build_parse_roundtrip_witness :
  (0 <= 61 <= 255 /\ 0 <= 1 <= 255 /\ 0 <= len [x01; x02; x7e] <= 60000)
  /\ exists frame r,
       build_command 61 1 [x01; x02; x7e] = Ok frame
       /\ parse_response frame = Ok (Some r)
       /\ r_type r = 0 /\ r_can_addr r = 61 /\ r_cmd_id r = 1
       /\ r_payload r = [x01; x02; x7e].
Proof.
  split.
  - unfold len. cbn. lia.
  - apply (build_parse_roundtrip 61 1 [x01; x02; x7e]); unfold len; cbn; lia.
Defined.

(** C5 (malformed input).  [parse_response] returns [None], never a response
    and never an exception, on every input shorter than six bytes and on every
    input whose first byte or whose last byte is not the marker [0x7E]. *)
Theorem parse_response_rejects (data : bytes) :
  len data < 6
  \/ nth_error data 0 <> Some x7e
  \/ nth_error data (List.length data - 1) <> Some x7e ->
  parse_response data = Ok None.
Proof.
  intros H.
  destruct (Z.ltb_spec (len data) 6) as [Short | Long].
  { unfold parse_response.
    replace (len data <? 6) with true by (symmetry; apply Z.ltb_lt; lia).
    reflexivity. }
  rewrite parse_response_long by lia.
  destruct H as [H | [H | H]]; [lia | |].
  - rewrite nth_error_of_nth in H by (unfold len in Long; lia).
    destruct (int_of_byte (nth 0 data x00) =? CMD_START) eqn:E; [|reflexivity].
    apply marker_byte in E. congruence.
  - rewrite nth_error_of_nth in H by (unfold len in Long; lia).
    destruct (int_of_byte (nth (List.length data - 1) data x00) =? CMD_STOP) eqn:E.
    + apply marker_byte in E. congruence.
    + rewrite orb_true_r. reflexivity.
Qed.

Lemma parse_response_rejects_witness :
  (len [x7e; x03; x00; x00; x3d; x01; x00] < 6
   \/ nth_error [x7e; x03; x00; x00; x3d; x01; x00] 0 <> Some x7e
   \/ nth_error [x7e; x03; x00; x00; x3d; x01; x00] 6 <> Some x7e)
  /\ parse_response [x7e; x03; x00; x00; x3d; x01; x00] = Ok None.
Proof.
  split.
  - right. right. cbn. discriminate.
  - apply (parse_response_rejects [x7e; x03; x00; x00; x3d; x01; x00]).
    right. right. cbn. discriminate.
Defined.

(** C9 (lenient decoding).  On every input of at least six bytes whose first
    and last bytes are the marker [0x7E], [parse_response] returns a response
    with length = bytes 1-2 read as a little-endian 16-bit number, type =
    byte 3, can_addr = byte 4, cmd_id = byte 5, payload = bytes 6 up to, not
    including, the last one (empty when the input has at most seven bytes)
    and raw = the input.  Nothing relates the length field to the payload:
    the statement holds whatever bytes 1-2 are. *)
Theorem parse_response_accepts (data : bytes) :
  6 <= len data ->
  nth_error data 0 = Some x7e ->
  nth_error data (List.length data - 1) = Some x7e ->
  parse_response data =
    Ok (Some (mkResponse
                (int_of_byte (nth 1 data x00) + 256 * int_of_byte (nth 2 data x00))
                (int_of_byte (nth 3 data x00))
                (int_of_byte (nth 4 data x00))
                (int_of_byte (nth 5 data x00))
                (removelast (skipn 6 data))
                data))
  /\ (len data <= 7 -> removelast (skipn 6 data) = []).
Proof.
  intros L First Last. split; [|apply removelast_short].
  rewrite parse_response_long by exact L.
  rewrite (nth_of_nth_error _ _ _ First), (nth_of_nth_error _ _ _ Last).
  reflexivity.
Qed.

(** A frame announcing 65535 bytes and carrying one is decoded all the same. *)
Lemma parse_response_accepts_witness :
  (6 <= len [x7e; xff; xff; x07; x3d; x01; x2a; x7e]
   /\ nth_error [x7e; xff; xff; x07; x3d; x01; x2a; x7e] 0 = Some x7e
   /\ nth_error [x7e; xff; xff; x07; x3d; x01; x2a; x7e] 7 = Some x7e)
  /\ parse_response [x7e; xff; xff; x07; x3d; x01; x2a; x7e] =
       Ok (Some (mkResponse 65535 7 61 1 [x2a]
                   [x7e; xff; xff; x07; x3d; x01; x2a; x7e])).
Proof.
  split.
  - unfold len. cbn. repeat split; try reflexivity. lia.
  - apply (parse_response_accepts [x7e; xff; xff; x07; x3d; x01; x2a; x7e]).
    + unfold len. cbn. lia.
    + reflexivity.
    + reflexivity.
Defined.

(** C6, as stated, fails: a payload of 65533 bytes needs the length 65536,
    which [struct.pack('<H', ...)] refuses, so [build_command] raises. *)
Lemma build_command_raises_on_long_payload :
  ~ exists frame,
      build_command SCB_ADDRESS CMD_GET_SCB_DATA (repeat x00 (N.to_nat 65533))
      = Ok frame.
Proof.
  intros (frame & E).
  rewrite build_command_too_long in E.
  - discriminate.
  - unfold SCB_ADDRESS. lia.
  - unfold CMD_GET_SCB_DATA. lia.
  - unfold len. rewrite repeat_length, N_nat_Z. reflexivity.
Qed.

(** C6 (amended).  For every destination address and command id in [0..255]
    and every payload of at most 65532 bytes, [build_command] succeeds and
    returns 0x7E, the length as a little-endian 16-bit number, 0x00, the
    address, the command id, the payload and 0x7E, the length being
    3 + len(payload). *)
Theorem build_command_layout (a c : Z) (p : bytes) :
  0 <= a <= 255 -> 0 <= c <= 255 -> len p <= 65532 ->
  exists lo hi ba bc,
    build_command a c p = Ok ([x7e] ++ [lo; hi] ++ [x00] ++ [ba] ++ [bc] ++ p ++ [x7e])
    /\ int_of_byte lo + 256 * int_of_byte hi = 3 + len p
    /\ int_of_byte ba = a /\ int_of_byte bc = c.
Proof.
  intros Ra Rc Lp. exact (build_command_frame a c p Ra Rc Lp).
Qed.

Lemma build_command_layout_witness :
  (0 <= SCB_ADDRESS <= 255 /\ 0 <= CMD_GET_SCB_DATA <= 255 /\ len (@nil byte) <= 65532)
  /\ exists lo hi ba bc,
       build_command SCB_ADDRESS CMD_GET_SCB_DATA [] =
         Ok ([x7e] ++ [lo; hi] ++ [x00] ++ [ba] ++ [bc] ++ [] ++ [x7e])
       /\ int_of_byte lo + 256 * int_of_byte hi = 3 + len (@nil byte)
       /\ int_of_byte ba = SCB_ADDRESS /\ int_of_byte bc = CMD_GET_SCB_DATA.
Proof.
  split.
  - unfold SCB_ADDRESS, CMD_GET_SCB_DATA, len. cbn. lia.
  - apply (build_command_layout SCB_ADDRESS CMD_GET_SCB_DATA []);
      unfold SCB_ADDRESS, CMD_GET_SCB_DATA, len; cbn; lia.
Defined.

(** ** The result record *)

Lemma errors_extend_errors (msgs : list string) (r : TestResult) :
  errors (errors_extend msgs r) = errors r ++ msgs.
Proof.
  unfold errors_extend. revert r.
  induction msgs as [|m msgs IH]; intros r; cbn [fold_left].
  - rewrite app_nil_r. reflexivity.
  - rewrite IH. cbn [errors_append errors]. rewrite <- app_assoc. reflexivity.
Qed.

Lemma errors_extend_counters (msgs : list string) (r : TestResult) :
  requests_sent (errors_extend msgs r) = requests_sent r
  /\ responses_received (errors_extend msgs r) = responses_received r.
Proof.
  unfold errors_extend. revert r.
  induction msgs as [|m msgs IH]; intros r; cbn [fold_left]; [auto|].
  destruct (IH (errors_append m r)) as [E1 E2]. rewrite E1, E2. auto.
Qed.

Lemma success_rate_errors_extend (msgs : list string) (r : TestResult) :
  success_rate (errors_extend msgs r) = success_rate r.
Proof.
  unfold success_rate.
  destruct (errors_extend_counters msgs r) as [E1 E2]. rewrite E1, E2.
  reflexivity.
Qed.

(** [l[-20:]] drops all but the last twenty entries. *)
Lemma slice_from_last_20 {A : Type} (l : list A) :
  slice_from l (-20) = skipn (List.length l - 20) l.
Proof.
  unfold slice_from. f_equal.
  pose proof (len_nonneg l) as N.
  destruct (Z.le_gt_cases 20 (len l)) as [G | G].
  - rewrite slice_bound_from_end by lia. unfold len. lia.
  - rewrite slice_bound_below by lia. unfold len in G. lia.
Qed.

(** C4, as stated, fails: the stored log keeps every entry; after twenty-one
    appends to a fresh result it has twenty-one. *)
Lemma stored_error_log_exceeds_20 :
  ~ len (errors (errors_extend (repeat "timeout"%string 21)
                   (new_TestResult "crash_test" 0))) <= 20.
Proof.
  rewrite errors_extend_errors. cbn. lia.
Qed.

(** C4 (amended).  The stored error log keeps every appended entry; the
    record produced by [to_dict] carries only the most recent twenty (all of
    them when there are fewer), in their order, the oldest ones left out.
    [to_dict] returns whenever [success_rate] does. *)
Theorem to_dict_errors_last_20 (r : TestResult) (msgs : list string) (rate : float) :
  success_rate r = Ok rate ->
  errors (errors_extend msgs r) = errors r ++ msgs
  /\ exists d older,
       to_dict (errors_extend msgs r) = Ok d
       /\ errors r ++ msgs = older ++ d_errors d
       /\ len (d_errors d) = Z.min 20 (len (errors r ++ msgs)).
Proof.
  intros Rate. split; [apply errors_extend_errors|].
  unfold to_dict. rewrite success_rate_errors_extend, Rate. cbn [bind].
  eexists _, (firstn (List.length (errors r ++ msgs) - 20) (errors r ++ msgs)).
  split; [reflexivity|]. cbn [d_errors].
  rewrite slice_from_last_20, errors_extend_errors.
  split.
  - symmetry. apply firstn_skipn.
  - unfold len. rewrite length_skipn. lia.
Qed.

Lemma to_dict_errors_last_20_witness :
  success_rate (new_TestResult "crash_test" 0) = Ok (Fin 0)
  /\ exists d older,
       to_dict (errors_extend (repeat "timeout"%string 21)
                  (new_TestResult "crash_test" 0)) = Ok d
       /\ errors (new_TestResult "crash_test" 0) ++ repeat "timeout"%string 21
          = older ++ d_errors d
       /\ len (d_errors d)
          = Z.min 20 (len (errors (new_TestResult "crash_test" 0)
                           ++ repeat "timeout"%string 21)).
Proof.
  split.
  - reflexivity.
  - apply (to_dict_errors_last_20 (new_TestResult "crash_test" 0)
             (repeat "timeout"%string 21) (Fin 0)).
    reflexivity.
Defined.

(** ** The liveness monitor *)

Lemma Qltb_lt (x y : Q) : Qltb x y = true <-> (x < y)%Q.
Proof.
  unfold Qltb. rewrite Qlt_alt. destruct (x ?= y)%Q; split; congruence.
Qed.

Lemma Qltb_ge (x y : Q) : Qltb x y = false <-> (y <= x)%Q.
Proof.
  unfold Qltb. destruct (Qcompare_spec x y) as [E | L | G];
    split; intros H; try reflexivity; try discriminate; try lra.
Qed.

Lemma probe_frame_built :
  build_command SCB_ADDRESS CMD_GET_SCB_DATA [] = Ok probe_frame.
Proof. reflexivity. Qed.

Lemma check_device_alive_eq (env : Env) (ip : string) (timeout : Q) (w : World) :
  check_device_alive env ip timeout w
  = (Val (answers env (tick w) ip timeout), after_interaction env w).
Proof.
  unfold check_device_alive. rewrite probe_frame_built. reflexivity.
Qed.

Lemma time_sleep_eq (d : Q) (w : World) :
  (0 <= d)%Q ->
  time_sleep d w = (Val tt, mkWorld (now w + d)%Q (tick w) (trace w)).
Proof.
  intros D. unfold time_sleep.
  replace (Qltb d 0) with false by (symmetry; apply Qltb_ge; exact D).
  reflexivity.
Qed.

(** One turn of the [while] loop of [wait_for_device]. *)
Lemma wait_for_device_loop_step (env : Env) (fuel : nat) (ip : string)
    (end_time interval : Q) (w : World) :
  (0 <= interval)%Q ->
  wait_for_device_loop env (S fuel) ip end_time interval w =
    if Qltb (now w) end_time then
      if answers env (tick w) ip 2 then (Val true, after_interaction env w)
      else
        wait_for_device_loop env fuel ip end_time interval
          (mkWorld (now w + elapsed env (tick w) + interval)%Q (S (tick w)) (trace w))
    else (Val false, w).
Proof.
  intros I. cbn [wait_for_device_loop]. unfold mbind at 1. unfold time_time at 1.
  destruct (Qltb (now w) end_time); [|reflexivity].
  unfold mbind at 1. rewrite check_device_alive_eq.
  destruct (answers env (tick w) ip 2); [reflexivity|].
  unfold mbind. rewrite time_sleep_eq by exact I. reflexivity.
Qed.

Section WaitLoop.

Variable env : Env.
Variable ip : string.
Variables end_time interval : Q.
Hypothesis interval_pos : (0 < interval)%Q.
Hypothesis elapsed_nonneg : forall n, (0 <= elapsed env n)%Q.

(** With a positive poll interval the loop ends: [fuel] turns are enough
    when the time left is at most [fuel] intervals.  It changes neither the
    trace nor anything but the clock and the tick. *)
Lemma wait_for_device_loop_returns (fuel : nat) :
  forall w,
    (end_time - now w <= inject_Z (Z.of_nat fuel) * interval)%Q ->
    exists recovered w',
      wait_for_device_loop env (S fuel) ip end_time interval w = (Val recovered, w')
      /\ trace w' = trace w.
Proof.
  induction fuel as [|fuel IH]; intros w Left;
    rewrite wait_for_device_loop_step by lra.
  - replace (Qltb (now w) end_time) with false
      by (symmetry; apply Qltb_ge;
          change (inject_Z (Z.of_nat 0)) with 0%Q in Left; lra).
    eauto.
  - destruct (Qltb (now w) end_time) eqn:T; [|eauto].
    destruct (answers env (tick w) ip 2); [eexists _, _; split; reflexivity|].
    apply Qltb_lt in T.
    destruct (IH (mkWorld (now w + elapsed env (tick w) + interval)%Q
                    (S (tick w)) (trace w))) as (b & w' & E & Tr).
    { cbn [now]. pose proof (elapsed_nonneg (tick w)).
      rewrite Nat2Z.inj_succ in Left. unfold Z.succ in Left.
      rewrite inject_Z_plus in Left. change (inject_Z 1) with 1%Q in Left.
      lra. }
    exists b, w'. split; [exact E | exact Tr].
Qed.

Variable longest : Q.
Hypothesis elapsed_bounded : forall n, (elapsed env n <= longest)%Q.
Hypothesis never_answers : forall n, answers env n ip 2 = false.

(** Against a device that never answers, the loop returns [False], not
    before [end_time]; when it was entered before [end_time], it returns
    less than one probe and one interval after it. *)
Lemma wait_for_device_loop_dead (fuel : nat) :
  forall w,
    (end_time - now w <= inject_Z (Z.of_nat fuel) * interval)%Q ->
    exists w',
      wait_for_device_loop env (S fuel) ip end_time interval w = (Val false, w')
      /\ (end_time <= now w')%Q
      /\ ((now w < end_time)%Q -> (now w' < end_time + longest + interval)%Q)
      /\ ((end_time <= now w)%Q -> w' = w).
Proof.
  induction fuel as [|fuel IH]; intros w Left;
    rewrite wait_for_device_loop_step by lra.
  - assert (G : (end_time <= now w)%Q)
      by (change (inject_Z (Z.of_nat 0)) with 0%Q in Left; lra).
    replace (Qltb (now w) end_time) with false by (symmetry; apply Qltb_ge; exact G).
    exists w. repeat split; auto. intros; lra.
  - destruct (Qltb (now w) end_time) eqn:T.
    + rewrite never_answers. apply Qltb_lt in T.
      pose proof (elapsed_nonneg (tick w)) as E0.
      pose proof (elapsed_bounded (tick w)) as E1.
      destruct (IH (mkWorld (now w + elapsed env (tick w) + interval)%Q
                      (S (tick w)) (trace w))) as (w' & E & Late & Soon & Same).
      { cbn [now]. rewrite Nat2Z.inj_succ in Left. unfold Z.succ in Left.
        rewrite inject_Z_plus in Left. change (inject_Z 1) with 1%Q in Left.
      lra. }
      cbn [now] in Soon, Same.
      exists w'. split; [exact E|]. split; [exact Late|].
      split; [|intros; lra].
      intros _.
      destruct (Qlt_le_dec (now w + elapsed env (tick w) + interval) end_time)
        as [Before | After].
      * apply Soon. exact Before.
      * rewrite (Same After). cbn [now]. lra.
    + apply Qltb_ge in T. exists w. repeat split; auto. intros; lra.
Qed.

End WaitLoop.

Lemma wait_for_device_eq (env : Env) (fuel : nat) (ip : string)
    (timeout interval : Q) (w : World) :
  wait_for_device env fuel ip timeout interval w
  = wait_for_device_loop env fuel ip (now w + timeout)%Q interval w.
Proof. reflexivity. Qed.

(** C8, as stated, fails.  Against a device whose every probe takes 2.5 s to
    fail, [wait_for_device] with a 60 s budget and a 2 s poll interval enters
    its last turn at 58.5 s and returns at 63 s, later than 60 + 2. *)
Lemma wait_for_device_returns_late :
  (forall n, answers dead_device n lab_ip 2 = false)
  /\ exists w',
       wait_for_device dead_device 40 lab_ip 60 2 world0 = (Val false, w')
       /\ ~ (now w' <= now world0 + 60 + 2)%Q.
Proof.
  split; [reflexivity|].
  eexists. split.
  - vm_compute. reflexivity.
  - cbn [now]. intros H. vm_compute in H. apply H. reflexivity.
Qed.

(** C8 (amended).  When every liveness probe fails, the poll interval is
    positive and the timeout is not negative, [wait_for_device] returns
    [False]; counting the time spent in probes and in sleeps, it returns no
    earlier than the timeout after the call and earlier than the timeout plus
    one poll interval plus the duration of the longest probe. *)
Theorem wait_for_device_dead_window (env : Env) (ip : string)
    (timeout interval longest : Q) (fuel : nat) (w : World) :
  (0 <= timeout)%Q ->
  (0 < interval)%Q ->
  (forall n, (0 <= elapsed env n <= longest)%Q) ->
  (forall n, answers env n ip 2 = false) ->
  (timeout <= inject_Z (Z.of_nat fuel) * interval)%Q ->
  exists w',
    wait_for_device env (S fuel) ip timeout interval w = (Val false, w')
    /\ (now w + timeout <= now w')%Q
    /\ (now w' < now w + timeout + interval + longest)%Q.
Proof.
  intros T I E Dead Fuel.
  rewrite wait_for_device_eq.
  destruct (wait_for_device_loop_dead env ip (now w + timeout)%Q interval I
              (fun n => proj1 (E n)) longest (fun n => proj2 (E n)) Dead fuel w)
    as (w' & Eq & Late & Soon & Same); [lra|].
  exists w'. split; [exact Eq|]. split; [exact Late|].
  pose proof (E 0%nat) as E0.
  destruct (Qlt_le_dec (now w) (now w + timeout)) as [Before | After].
  - specialize (Soon Before). lra.
  - rewrite (Same After). lra.
Qed.

Lemma wait_for_device_dead_window_witness :
  ((0 <= 60)%Q /\ (0 < 2)%Q
   /\ (forall n, (0 <= elapsed dead_device n <= 5 # 2)%Q)
   /\ (forall n, answers dead_device n lab_ip 2 = false)
   /\ (60 <= inject_Z (Z.of_nat 30) * 2)%Q)
  /\ exists w',
       wait_for_device dead_device 31 lab_ip 60 2 world0 = (Val false, w')
       /\ (now world0 + 60 <= now w')%Q
       /\ (now w' < now world0 + 60 + 2 + (5 # 2))%Q.
Proof.
  assert (H1 : (0 <= 60)%Q) by (vm_compute; discriminate).
  assert (H2 : (0 < 2)%Q) by reflexivity.
  assert (H3 : forall n, (0 <= elapsed dead_device n <= 5 # 2)%Q)
    by (intros n; split; vm_compute; discriminate).
  assert (H4 : forall n, answers dead_device n lab_ip 2 = false)
    by (intros n; reflexivity).
  assert (H5 : (60 <= inject_Z (Z.of_nat 30) * 2)%Q) by (vm_compute; discriminate).
  split.
  - repeat split; auto; apply H3.
  - exact (wait_for_device_dead_window dead_device lab_ip 60 2 (5 # 2) 30 world0
             H1 H2 H3 H4 H5).
Defined.

(** ** The crash check *)

(** [check_for_crash], branch by branch. *)
Lemma check_for_crash_eq (env : Env) (fuel : nat) (name : string)
    (t : CrashTester) (w : World) :
  check_for_crash env fuel name (t, w) =
    if answers env (tick w) (scb_ip t) 3 then (Val false, (t, after_interaction env w))
    else
      let t1 := mkCrashTester (scb_ip t) (crash_detected t) (crash_method t)
                  (add_device_unresponsive_events 1 (result t)) in
      match wait_for_device env fuel (scb_ip t) 60 2 (after_interaction env w) with
      | (Val recovered, w1) =>
          let method :=
            if recovered then name else (name ++ " (no recovery)")%string in
          (Val true, (with_verdict method t, record_crash method w1))
      | (Exc e, w1) => (Exc e, (t1, w1))
      | (OutOfFuel, w1) => (OutOfFuel, (t1, w1))
      end.
Proof.
  unfold check_for_crash.
  unfold mbind at 1. unfold self_get at 1. cbn [fst snd].
  unfold mbind at 1. unfold lift at 1. cbn [fst snd].
  rewrite check_device_alive_eq.
  destruct (answers env (tick w) (scb_ip t) 3); cbn [negb]; [reflexivity|].
  unfold mbind at 1. unfold self_result_update at 1. cbn [fst snd].
  unfold mbind at 1. unfold lift at 1. cbn [fst snd].
  destruct (wait_for_device env fuel (scb_ip t) 60 2 (after_interaction env w))
    as [[recovered | e |] w1]; try reflexivity.
  destruct recovered; reflexivity.
Qed.

(** C10 (frame).  When the liveness probe finds the device alive,
    [check_for_crash] returns [False] and the tester is the same object as
    before: counters, error log, [crash_detected] and [crash_method] are
    untouched, and nothing is added to the trace. *)
Theorem check_for_crash_alive (env : Env) (fuel : nat) (name : string)
    (t : CrashTester) (w : World) :
  answers env (tick w) (scb_ip t) 3 = true ->
  exists w',
    check_for_crash env fuel name (t, w) = (Val false, (t, w'))
    /\ trace w' = trace w.
Proof.
  intros Alive. rewrite check_for_crash_eq, Alive.
  exists (after_interaction env w). split; reflexivity.
Qed.

Lemma check_for_crash_alive_witness :
  answers (blinking_device 7) (tick world0)
    (scb_ip (mkCrashTester lab_ip false None (new_TestResult "crash_test" 0))) 3
  = true
  /\ exists w',
       check_for_crash (blinking_device 7) 0 "concurrent_flood"
         (mkCrashTester lab_ip false None (new_TestResult "crash_test" 0), world0)
       = (Val false,
          (mkCrashTester lab_ip false None (new_TestResult "crash_test" 0), w'))
       /\ trace w' = trace world0.
Proof.
  split.
  - reflexivity.
  - apply (check_for_crash_alive (blinking_device 7) 0 "concurrent_flood"
             (mkCrashTester lab_ip false None (new_TestResult "crash_test" 0))
             world0).
    reflexivity.
Defined.

(** C2 (crash verdict).  When the liveness probe of [check_for_crash] gets no
    answer, the recovery wait (60 s, polled every 2 s) returns, and the call
    returns [True] having added exactly 1 to [device_unresponsive_events] and
    exactly 1 to [possible_crashes], set [crash_detected], and stored as
    [crash_method] the attack name when the device recovered and the name
    followed by " (no recovery)" when it did not; the other fields of the
    tester and of its result are as before. *)
Theorem check_for_crash_unresponsive (env : Env) (fuel : nat) (name : string)
    (t : CrashTester) (w : World) :
  (forall n, (0 <= elapsed env n)%Q) ->
  (31 <= fuel)%nat ->
  answers env (tick w) (scb_ip t) 3 = false ->
  exists recovered w1 t' w',
    wait_for_device env fuel (scb_ip t) 60 2 (after_interaction env w)
      = (Val recovered, w1)
    /\ check_for_crash env fuel name (t, w) = (Val true, (t', w'))
    /\ device_unresponsive_events (result t')
       = device_unresponsive_events (result t) + 1
    /\ possible_crashes (result t') = possible_crashes (result t) + 1
    /\ crash_detected t' = true
    /\ crash_method t'
       = Some (if recovered then name else (name ++ " (no recovery)")%string)
    /\ t' = with_verdict
              (if recovered then name else (name ++ " (no recovery)")%string) t.
Proof.
  intros E Fuel Dead.
  destruct fuel as [|fuel]; [lia|].
  destruct (wait_for_device_loop_returns env (scb_ip t)
              (now (after_interaction env w) + 60)%Q 2 ltac:(reflexivity) E fuel
              (after_interaction env w)) as (recovered & w1 & Eq & _).
  { assert (F : (30 <= inject_Z (Z.of_nat fuel))%Q).
    { change 30%Q with (inject_Z 30). rewrite <- Zle_Qle. lia. }
    lra. }
  rewrite <- wait_for_device_eq in Eq.
  exists recovered, w1. eexists _, _.
  split; [exact Eq|].
  rewrite check_for_crash_eq, Dead, Eq. cbv zeta.
  split; [reflexivity|].
  cbn [with_verdict result crash_detected crash_method add_possible_crashes
       add_device_unresponsive_events device_unresponsive_events possible_crashes].
  repeat split.
Qed.

Lemma check_for_crash_unresponsive_witness :
  ((forall n, (0 <= elapsed (blinking_device 0) n)%Q)
   /\ (31 <= 31)%nat
   /\ answers (blinking_device 0) (tick world0)
        (scb_ip (mkCrashTester lab_ip false None (new_TestResult "crash_test" 0))) 3
      = false)
  /\ exists recovered w1 t' w',
       wait_for_device (blinking_device 0) 31 lab_ip 60 2
         (after_interaction (blinking_device 0) world0) = (Val recovered, w1)
       /\ check_for_crash (blinking_device 0) 31 "rapid_reconnect"
            (mkCrashTester lab_ip false None (new_TestResult "crash_test" 0), world0)
          = (Val true, (t', w'))
       /\ device_unresponsive_events (result t') = 0 + 1
       /\ possible_crashes (result t') = 0 + 1
       /\ crash_detected t' = true
       /\ crash_method t'
          = Some (if recovered then "rapid_reconnect"%string
                  else ("rapid_reconnect" ++ " (no recovery)")%string)
       /\ t' = with_verdict
                 (if recovered then "rapid_reconnect"%string
                  else ("rapid_reconnect" ++ " (no recovery)")%string)
                 (mkCrashTester lab_ip false None (new_TestResult "crash_test" 0)).
Proof.
  assert (H1 : forall n, (0 <= elapsed (blinking_device 0) n)%Q)
    by (intros n; vm_compute; discriminate).
  split.
  - repeat split; auto.
  - exact (check_for_crash_unresponsive (blinking_device 0) 31 "rapid_reconnect"
             (mkCrashTester lab_ip false None (new_TestResult "crash_test" 0))
             world0 H1 (le_n 31) eq_refl).
Defined.

(** ** The orchestrator *)

(** *** Rules of the program logic *)

Lemma triple_bind {S A B : Type} (P : S -> Prop) (m : M S A) (k : A -> M S B)
    (Q1 : run_result A -> S -> Prop) (Q2 : run_result B -> S -> Prop) :
  triple P m Q1 ->
  (forall a, triple (Q1 (Val a)) (k a) Q2) ->
  (forall e s, Q1 (Exc e) s -> Q2 (Exc e) s) ->
  (forall s, Q1 OutOfFuel s -> Q2 OutOfFuel s) ->
  triple P (mbind m k) Q2.
Proof.
  intros Hm Hk He Hf s Ps. unfold mbind.
  specialize (Hm s Ps).
  destruct (m s) as [[a | e |] s']; cbn [fst snd] in *.
  - apply Hk. exact Hm.
  - apply He. exact Hm.
  - apply Hf. exact Hm.
Qed.


Lemma triple_ret {S A : Type} (P : S -> Prop) (a : A)
    (Q : run_result A -> S -> Prop) :
  (forall s, P s -> Q (Val a) s) -> triple P (ret a) Q.
Proof. intros H s Ps. apply H, Ps. Qed.

(** Sequencing under an invariant: the first part keeps [I], whatever its
    result. *)
Lemma triple_bind_inv {S A B : Type} (I : S -> Prop) (m : M S A) (k : A -> M S B)
    (Q : run_result B -> S -> Prop) :
  triple I m (always I) ->
  (forall a, triple I (k a) Q) ->
  (forall e s, I s -> Q (Exc e) s) ->
  (forall s, I s -> Q OutOfFuel s) ->
  triple I (mbind m k) Q.
Proof.
  intros Hm Hk He Hf.
  apply (triple_bind I m k (always I) Q); auto.
Qed.


Lemma triple_of_outcome {S A : Type} (I : S -> Prop) (o : outcome A) :
  triple I (of_outcome o) (always I).
Proof. intros s Is. unfold of_outcome, always. destruct o; exact Is. Qed.

(** *** Computations that leave the trace alone *)

Lemma keeps_trace_ret {A : Type} (a : A) : keeps_trace (ret a).
Proof. intros w. reflexivity. Qed.

Lemma keeps_trace_bind {A B : Type} (m : M World A) (k : A -> M World B) :
  keeps_trace m -> (forall a, keeps_trace (k a)) -> keeps_trace (mbind m k).
Proof.
  intros Hm Hk w. unfold mbind. specialize (Hm w).
  destruct (m w) as [[a | e |] w']; cbn [snd] in *; auto.
  rewrite Hk. exact Hm.
Qed.

Lemma keeps_trace_time_time : keeps_trace time_time.
Proof. intros w. reflexivity. Qed.

Lemma keeps_trace_time_sleep (d : Q) : keeps_trace (time_sleep d).
Proof. intros w. unfold time_sleep. destruct (Qltb d 0); reflexivity. Qed.

Lemma keeps_trace_interact (env : Env) {A : Type} (f : nat -> A) :
  keeps_trace (interact env f).
Proof. intros w. reflexivity. Qed.

Lemma keeps_trace_read_stop_flag (env : Env) : keeps_trace (read_stop_flag env).
Proof. intros w. reflexivity. Qed.

Lemma keeps_trace_check_device_alive (env : Env) (ip : string) (timeout : Q) :
  keeps_trace (check_device_alive env ip timeout).
Proof. intros w. rewrite check_device_alive_eq. reflexivity. Qed.

Lemma keeps_trace_wait_for_device_loop (env : Env) (ip : string)
    (end_time interval : Q) (fuel : nat) :
  keeps_trace (wait_for_device_loop env fuel ip end_time interval).
Proof.
  induction fuel as [|fuel IH]; [intros w; reflexivity|].
  cbn [wait_for_device_loop].
  apply keeps_trace_bind; [apply keeps_trace_time_time|]. intros t.
  destruct (Qltb t end_time); [|apply keeps_trace_ret].
  apply keeps_trace_bind; [apply keeps_trace_check_device_alive|]. intros alive.
  destruct alive; [apply keeps_trace_ret|].
  apply keeps_trace_bind; [apply keeps_trace_time_sleep|]. intros _. exact IH.
Qed.

Lemma keeps_trace_wait_for_device (env : Env) (fuel : nat) (ip : string)
    (timeout interval : Q) :
  keeps_trace (wait_for_device env fuel ip timeout interval).
Proof.
  unfold wait_for_device.
  apply keeps_trace_bind; [apply keeps_trace_time_time|]. intros t.
  apply keeps_trace_wait_for_device_loop.
Qed.

Lemma keeps_trace_sock_connect (env : Env) (ip : string) (timeout : Q) :
  keeps_trace (sock_connect env ip timeout).
Proof.
  intros w. unfold sock_connect, interact. destruct (io_ok env (tick w)); reflexivity.
Qed.

Lemma keeps_trace_open_sockets (env : Env) (n : nat) (ip : string) (timeout : Q) :
  keeps_trace (open_sockets env n ip timeout).
Proof.
  induction n as [|n IH]; cbn [open_sockets]; [apply keeps_trace_ret|].
  apply keeps_trace_bind; [apply keeps_trace_sock_connect|]. intros s.
  apply keeps_trace_bind; [exact IH|]. intros rest. apply keeps_trace_ret.
Qed.

Lemma keeps_trace_close_all (env : Env) (sockets : list socket) :
  keeps_trace (close_all env sockets).
Proof.
  induction sockets as [|s rest IH]; cbn [close_all]; [apply keeps_trace_ret|].
  apply keeps_trace_bind; [apply keeps_trace_interact|]. intros _. exact IH.
Qed.

(** *** Invariants of the flag and the trace

    A property [J] of the crash flag and the trace that survives a new attack
    event is kept by all the traffic-generating code; if it also survives
    raising the flag, it is kept by every method of the tester and by the
    round loop. *)

Section Invariants.

Variable env : Env.
Variable J : bool -> list event -> Prop.
Hypothesis J_attack :
  forall flag tr name, J flag tr -> J flag (EvAttack name :: tr).

Lemma inv_lift {A : Type} (m : M World A) :
  keeps_trace m -> triple (holds J) (lift m) (always (holds J)).
Proof.
  intros K [t w] H. unfold lift, always, holds in *. cbn [fst snd] in *.
  specialize (K w). destruct (m w) as [r w']. cbn [fst snd] in *.
  rewrite K. exact H.
Qed.

Lemma inv_self_get {A : Type} (f : CrashTester -> A) :
  triple (holds J) (self_get f) (always (holds J)).
Proof. intros s H. exact H. Qed.

Lemma inv_self_result_update (f : TestResult -> TestResult) :
  triple (holds J) (self_result_update f) (always (holds J)).
Proof. intros s H. exact H. Qed.

Lemma inv_log_attack (name : string) :
  triple (holds J) (lift (log (EvAttack name))) (always (holds J)).
Proof. intros [t w] H. apply J_attack. exact H. Qed.

Ltac inv_step :=
  match goal with
  | H : triple ?P ?m ?Q |- triple ?P ?m ?Q => exact H
  | |- triple _ (mbind _ _) _ =>
      apply triple_bind_inv;
      [ | intros ? | intros ? ? HI; exact HI | intros ? HI; exact HI ]
  | |- triple _ (ret _) _ => apply triple_ret; intros ? HI; exact HI
  | |- triple _ (of_outcome _) _ => apply triple_of_outcome
  | |- triple _ (lift (log (EvAttack _))) _ => apply inv_log_attack
  | |- triple _ (lift _) _ => apply inv_lift
  | |- triple _ (self_get _) _ => apply inv_self_get
  | |- triple _ (self_result_update _) _ => apply inv_self_result_update
  | |- triple _ (if ?c then _ else _) _ => destruct c
  | |- triple _ (match ?x with Some _ => _ | None => _ end) _ => destruct x
  | |- keeps_trace _ =>
      first [ apply keeps_trace_time_time | apply keeps_trace_time_sleep
            | apply keeps_trace_interact | apply keeps_trace_read_stop_flag
            | apply keeps_trace_check_device_alive
            | apply keeps_trace_wait_for_device
            | apply keeps_trace_sock_connect | apply keeps_trace_open_sockets
            | apply keeps_trace_close_all ]
  end.

Lemma inv_run_workers (name : string) (looping count_responses : bool) :
  triple (holds J) (run_workers env name looping count_responses) (always (holds J)).
Proof. unfold run_workers. repeat inv_step. Qed.

Lemma inv_send_on_all (sockets : list socket) (cmd : bytes) :
  triple (holds J) (send_on_all env sockets cmd) (always (holds J)).
Proof.
  induction sockets as [|s rest IH]; cbn [send_on_all]; repeat inv_step.
Qed.

Lemma inv_connection_overflow_body (cmd : bytes) :
  triple (holds J) (connection_overflow_body env cmd) (always (holds J)).
Proof.
  unfold connection_overflow_body. repeat inv_step. apply inv_send_on_all.
Qed.

Lemma inv_rapid_reconnect_body (cmd : bytes) :
  triple (holds J) (rapid_reconnect_body env cmd) (always (holds J)).
Proof.
  unfold rapid_reconnect_body. repeat inv_step.
Qed.

Hypothesis J_crash :
  forall flag tr method, J flag tr -> J true (EvCrashSet method :: tr).













End Invariants.

(** *** From no crash to a crash verdict *)

Lemma clean_attack (flag : bool) (tr : list event) (name : string) :
  no_crash_yet flag tr -> no_crash_yet flag (EvAttack name :: tr).
Proof. intros [F N]. split; [exact F | exact N]. Qed.

Lemma verdict_check_for_crash (env : Env) (fuel : nat) (name : string) :
  triple clean (check_for_crash env fuel name) verdict.
Proof.
  intros [t w] [F N]. cbn [fst snd] in F, N.
  rewrite check_for_crash_eq. unfold verdict, clean, crashed, holds.
  destruct (answers env (tick w) (scb_ip t) 3).
  - split; [exact F | exact N].
  - pose proof (keeps_trace_wait_for_device env fuel (scb_ip t) 60 2
                  (after_interaction env w)) as K.
    destruct (wait_for_device env fuel (scb_ip t) 60 2 (after_interaction env w))
      as [[recovered | e |] w1];
      cbn [fst snd after_interaction trace crash_detected with_verdict record_crash] in *.
    + split; [reflexivity|]. eexists _, (trace w1). split; [reflexivity|].
      rewrite K. exact N.
    + split; [exact F | rewrite K; exact N].
    + split; [exact F | rewrite K; exact N].
Qed.

Section Verdicts.

Variable env : Env.

(** Steps that keep [clean], in front of a continuation with postcondition
    [Q] that is [clean] on an exception and on exhausted fuel. *)
Ltac clean_step :=
  match goal with
  | H : triple ?P ?m ?Q |- triple ?P ?m ?Q => exact H
  | |- triple clean (mbind (check_for_crash _ _ _) _) _ =>
      apply (triple_bind clean _ _ verdict);
      [ apply verdict_check_for_crash
      | intros [|]
      | intros ? ? HI; exact HI
      | intros ? HI; exact HI ]
  | |- triple clean (mbind _ _) _ =>
      apply (triple_bind_inv clean);
      [ | intros ? | intros ? ? HI; exact HI | intros ? HI; exact HI ]
  | |- triple clean (check_for_crash _ _ _) verdict => apply verdict_check_for_crash
  | |- triple _ (ret _) _ => apply triple_ret; intros ? HI; exact HI
  | |- triple clean (of_outcome _) _ => apply triple_of_outcome
  | |- triple clean (lift _) (always clean) =>
      apply (inv_lift no_crash_yet)
  | |- triple clean (self_get _) (always clean) =>
      apply (inv_self_get no_crash_yet)
  | |- triple clean (self_result_update _) (always clean) =>
      apply (inv_self_result_update no_crash_yet)
  | |- triple clean (run_workers _ _ _ _) (always clean) =>
      apply (inv_run_workers env _ clean_attack)
  | |- triple clean (connection_overflow_body _ _) (always clean) =>
      apply (inv_connection_overflow_body env _ clean_attack)
  | |- triple clean (rapid_reconnect_body _ _) (always clean) =>
      apply (inv_rapid_reconnect_body env _ clean_attack)
  | |- triple _ (if ?c then _ else _) _ => destruct c
  | |- triple _ (match ?x with Some _ => _ | None => _ end) _ => destruct x
  | |- keeps_trace _ =>
      first [ apply keeps_trace_time_time | apply keeps_trace_time_sleep
            | apply keeps_trace_interact | apply keeps_trace_read_stop_flag ]
  end.

Lemma verdict_connection_overflow_loop (fuel : nat) (cmd : bytes) (idx : list Z) :
  triple clean (connection_overflow_loop env fuel cmd idx) verdict_opt.
Proof.
  induction idx as [|i idx IH]; cbn [connection_overflow_loop]; repeat clean_step.
Qed.

Lemma verdict_rapid_reconnect_loop (fuel : nat) (cmd : bytes) (idx : list Z) :
  triple clean (rapid_reconnect_loop env fuel cmd idx) verdict_opt.
Proof.
  induction idx as [|i idx IH]; cbn [rapid_reconnect_loop]; repeat clean_step.
Qed.

Lemma verdict_attack_concurrent_flood (fuel : nat) (duration : Q) (num_sockets : Z) :
  triple clean (attack_concurrent_flood env fuel duration num_sockets) verdict.
Proof. unfold attack_concurrent_flood. repeat clean_step. Qed.

Lemma verdict_attack_combined_stress (fuel : nat) (duration : Q) :
  triple clean (attack_combined_stress env fuel duration) verdict.
Proof. unfold attack_combined_stress. repeat clean_step. Qed.

Lemma verdict_attack_connection_overflow (fuel : nat) (iterations : Z) :
  triple clean (attack_connection_overflow env fuel iterations) verdict.
Proof.
  unfold attack_connection_overflow.
  apply (triple_bind_inv clean);
    [apply triple_of_outcome | intros cmd | intros e s H; exact H | intros s H; exact H].
  apply (triple_bind clean _ _ verdict_opt);
    [apply verdict_connection_overflow_loop | | intros e s H; exact H
    | intros s H; exact H].
  intros [[|]|].
  - apply triple_ret. intros s H. exact H.
  - apply triple_ret. intros s H. exact H.
  - exact (verdict_check_for_crash env fuel _).
Qed.

Lemma verdict_attack_rapid_reconnect (fuel : nat) (iterations : Z) :
  triple clean (attack_rapid_reconnect env fuel iterations) verdict.
Proof.
  unfold attack_rapid_reconnect.
  apply (triple_bind_inv clean);
    [apply triple_of_outcome | intros cmd | intros e s H; exact H | intros s H; exact H].
  apply (triple_bind clean _ _ verdict_opt);
    [apply verdict_rapid_reconnect_loop | | intros e s H; exact H
    | intros s H; exact H].
  intros [[|]|].
  - apply triple_ret. intros s H. exact H.
  - apply triple_ret. intros s H. exact H.
  - exact (verdict_check_for_crash env fuel _).
Qed.




End Verdicts.

(** *** With the flag up the loops do nothing *)










(** Against a device that is down from the start the first attack is the
    last: the flood runs, the check finds no answer, the wait times out. *)
Example round_loop_on_dead_device :
  let final :=
    snd (round_loop dead_device 40 (attack_sequence dead_device 40) 300
           (fresh_tester, world0)) in
  crash_detected (fst final) = true
  /\ crash_method (fst final) = Some "concurrent_flood (no recovery)"%string
  /\ trace (snd final)
     = [EvCrashSet "concurrent_flood (no recovery)"; EvAttack "concurrent_flood"].
Proof. vm_compute. repeat split. Qed.


(** ** Rounding to binary64 *)

Section Rounding.

Local Open Scope Q_scope.

Lemma pow2_pos (e : Z) : 0 < pow2 e.
Proof. apply Qpower_0_lt. reflexivity. Qed.

Lemma pow2_add (a b : Z) : pow2 (a + b) == pow2 a * pow2 b.
Proof. apply Qpower_plus. discriminate. Qed.

Lemma pow2_le (a b : Z) : (a <= b)%Z -> pow2 a <= pow2 b.
Proof. intros H. apply Qpower_le_compat_l; [exact H | discriminate]. Qed.

Lemma pow2_lt_inv (a b : Z) : pow2 a < pow2 b -> (a < b)%Z.
Proof. intros H. apply (Qpower_lt_compat_l_inv 2); [exact H | reflexivity]. Qed.

Lemma pow2_inject (k : Z) : (0 <= k)%Z -> inject_Z (2 ^ k) == pow2 k.
Proof. intros H. apply (Zpower_Qpower 2 k H). Qed.

(** [ilog2] is the binary order of magnitude. *)
Lemma ilog2_spec (x : Q) :
  0 < x -> pow2 (ilog2 x) <= x /\ x < pow2 (ilog2 x + 1).
Proof.
  destruct x as [a b]. intros Pos.
  assert (Pa : (0 < a)%Z).
  { unfold Qlt in Pos. cbn in Pos. lia. }
  unfold ilog2. cbn [Qnum Qden].
  set (la := Z.log2 a). set (lb := Z.log2 (Z.pos b)).
  destruct (Z.log2_spec a Pa) as [A1 A2]. fold la in A1, A2.
  destruct (Z.log2_spec (Z.pos b) (Pos2Z.is_pos b)) as [B1 B2]. fold lb in B1, B2.
  assert (La : (0 <= la)%Z) by apply Z.log2_nonneg.
  assert (Lb : (0 <= lb)%Z) by apply Z.log2_nonneg.
  set (k := (la - lb)%Z).
  assert (X : a # b == inject_Z a / inject_Z (Z.pos b)) by apply Qmake_Qdiv.
  assert (Qb : 0 < inject_Z (Z.pos b)).
  { change 0 with (inject_Z 0). rewrite <- Zlt_Qlt. lia. }
  assert (QA1 : pow2 la <= inject_Z a).
  { rewrite <- pow2_inject by lia. rewrite <- Zle_Qle. exact A1. }
  assert (QA2 : inject_Z a < pow2 (la + 1)).
  { rewrite <- pow2_inject by lia. rewrite <- Zlt_Qlt. exact A2. }
  assert (QB1 : pow2 lb <= inject_Z (Z.pos b)).
  { rewrite <- pow2_inject by lia. rewrite <- Zle_Qle. exact B1. }
  assert (QB2 : inject_Z (Z.pos b) < pow2 (lb + 1)).
  { rewrite <- pow2_inject by lia. rewrite <- Zlt_Qlt. exact B2. }
  assert (Upper : a # b < pow2 (k + 1)).
  { rewrite X. apply Qlt_shift_div_r; [exact Qb|].
    assert (E : pow2 (la + 1) == pow2 (k + 1) * pow2 lb).
    { rewrite <- pow2_add. replace (k + 1 + lb)%Z with (la + 1)%Z by (unfold k; lia).
      reflexivity. }
    rewrite E in QA2. pose proof (pow2_pos (k + 1)). pose proof (pow2_pos lb). nra. }
  assert (Lower : pow2 (k - 1) < a # b).
  { rewrite X. apply Qlt_shift_div_l; [exact Qb|].
    assert (E : pow2 la == pow2 (k - 1) * pow2 (lb + 1)).
    { rewrite <- pow2_add. replace (k - 1 + (lb + 1))%Z with la by (unfold k; lia).
      reflexivity. }
    rewrite E in QA1. pose proof (pow2_pos (k - 1)). pose proof (pow2_pos (lb + 1)).
    nra. }
  destruct (Qle_bool (pow2 k) (a # b)) eqn:C.
  - apply Qle_bool_iff in C. split; [exact C | exact Upper].
  - assert (C' : a # b < pow2 k).
    { apply Qnot_le_lt. intros H. apply Qle_bool_iff in H. congruence. }
    split; [apply Qlt_le_weak; exact Lower|].
    replace (k - 1 + 1)%Z with k by lia. exact C'.
Qed.

Lemma ilog2_unique (x : Q) (k : Z) :
  0 < x -> pow2 k <= x -> x < pow2 (k + 1) -> ilog2 x = k.
Proof.
  intros Pos Lo Hi. destruct (ilog2_spec x Pos) as [Lo' Hi'].
  assert (ilog2 x < k + 1)%Z by (apply pow2_lt_inv; lra).
  assert (k < ilog2 x + 1)%Z by (apply pow2_lt_inv; lra).
  lia.
Qed.

Lemma ilog2_mono (x y : Q) : 0 < x -> x <= y -> (ilog2 x <= ilog2 y)%Z.
Proof.
  intros Pos Le.
  destruct (ilog2_spec x Pos) as [Lo _].
  destruct (ilog2_spec y) as [_ Hi]; [lra|].
  assert (ilog2 x < ilog2 y + 1)%Z by (apply pow2_lt_inv; lra).
  lia.
Qed.

Lemma fexp_pos (x : Q) : 0 < x -> fexp x = Z.max (ilog2 x - 52) (-1074).
Proof.
  intros Pos. unfold fexp. f_equal. f_equal.
  destruct (ilog2_spec x Pos) as [Lo Hi].
  assert (A : Qabs x == x) by (apply Qabs_pos; lra).
  apply ilog2_unique; rewrite A; assumption.
Qed.

(** *** Rounding to the nearest integer *)

Lemma round_half_even_floor (y : Q) :
  (Qfloor y <= round_half_even y <= Qfloor y + 1)%Z.
Proof.
  unfold round_half_even.
  destruct (y - inject_Z (Qfloor y) ?= 1 # 2); [destruct (Z.even (Qfloor y))| |]; lia.
Qed.

Lemma round_half_even_mono (y1 y2 : Q) :
  y1 <= y2 -> (round_half_even y1 <= round_half_even y2)%Z.
Proof.
  intros Le.
  pose proof (Qfloor_resp_le _ _ Le) as F.
  destruct (Z.eq_dec (Qfloor y1) (Qfloor y2)) as [E | NE].
  - unfold round_half_even. rewrite <- E.
    destruct (Qcompare_spec (y1 - inject_Z (Qfloor y1)) (1 # 2)) as [C1 | C1 | C1];
      destruct (Qcompare_spec (y2 - inject_Z (Qfloor y1)) (1 # 2)) as [C2 | C2 | C2];
      try destruct (Z.even (Qfloor y1)); try lia; exfalso; lra.
  - pose proof (round_half_even_floor y1). pose proof (round_half_even_floor y2). lia.
Qed.

Lemma round_half_even_Z (k : Z) : round_half_even (inject_Z k) = k.
Proof.
  unfold round_half_even. rewrite Qfloor_Z.
  destruct (Qcompare_spec (inject_Z k - inject_Z k) (1 # 2)) as [C | C | C];
    try reflexivity; exfalso; lra.
Qed.

Lemma round_half_even_ge (k : Z) (y : Q) :
  inject_Z k <= y -> (k <= round_half_even y)%Z.
Proof.
  intros H. rewrite <- (round_half_even_Z k). apply round_half_even_mono, H.
Qed.

Lemma round_half_even_le (k : Z) (y : Q) :
  y <= inject_Z k -> (round_half_even y <= k)%Z.
Proof.
  intros H. rewrite <- (round_half_even_Z k). apply round_half_even_mono, H.
Qed.

End Rounding.

Section RoundingOrder.

Local Open Scope Q_scope.

Lemma inject_Z_nonneg (k : Z) : (0 <= k)%Z -> 0 <= inject_Z k.
Proof. intros H. change 0 with (inject_Z 0). rewrite <- Zle_Qle. exact H. Qed.

Lemma nearest_nonneg (x : Q) : 0 <= x -> 0 <= nearest x.
Proof.
  intros Pos. unfold nearest.
  pose proof (pow2_pos (fexp x)) as P.
  assert (R : (0 <= round_half_even (x / pow2 (fexp x)))%Z).
  { apply round_half_even_ge. apply Qle_shift_div_l; [exact P|].
    change (inject_Z 0) with 0. lra. }
  apply inject_Z_nonneg in R. nra.
Qed.

(** Rounding to the nearest float is monotone on the positive rationals:
    inside one binade because [round_half_even] is, and across binades
    because the power of two between them is a float. *)
Lemma nearest_mono (x y : Q) : 0 < x -> x <= y -> nearest x <= nearest y.
Proof.
  intros Pos Le.
  assert (Posy : 0 < y) by lra.
  unfold nearest. rewrite (fexp_pos x Pos), (fexp_pos y Posy).
  pose proof (ilog2_mono x y Pos Le) as L.
  destruct (ilog2_spec x Pos) as [_ Hx].
  destruct (ilog2_spec y Posy) as [Ly _].
  set (ex := Z.max (ilog2 x - 52) (-1074)) in *.
  set (ey := Z.max (ilog2 y - 52) (-1074)) in *.
  pose proof (pow2_pos ex) as Pex. pose proof (pow2_pos ey) as Pey.
  destruct (Z.eq_dec ex ey) as [Same | Diff].
  - rewrite <- Same.
    assert (D : x / pow2 ex <= y / pow2 ex).
    { apply Qle_shift_div_l; [exact Pex|].
      unfold Qdiv. rewrite <- Qmult_assoc, (Qmult_comm (/ pow2 ex)), Qmult_inv_r by lra.
      lra. }
    apply round_half_even_mono in D. rewrite Zle_Qle in D. nra.
  - assert (Ey : ey = (ilog2 y - 52)%Z) by lia.
    assert (Exy : (ex + 1 <= ey)%Z) by lia.
    (* the float [2 ^ (ex + 53)] lies between the two roundings *)
    assert (Up : inject_Z (round_half_even (x / pow2 ex)) * pow2 ex <= pow2 (ex + 53)).
    { assert (B : x / pow2 ex <= inject_Z (2 ^ 53)).
      { apply Qle_shift_div_r; [exact Pex|].
        rewrite pow2_inject by lia. rewrite <- pow2_add.
        apply Qlt_le_weak. eapply Qlt_le_trans; [exact Hx|].
        apply pow2_le. lia. }
      apply round_half_even_le in B. rewrite Zle_Qle in B.
      rewrite pow2_inject in B by lia.
      rewrite (Z.add_comm ex 53), pow2_add. nra. }
    assert (Down : pow2 (ey + 52) <= inject_Z (round_half_even (y / pow2 ey)) * pow2 ey).
    { assert (B : inject_Z (2 ^ 52) <= y / pow2 ey).
      { apply Qle_shift_div_l; [exact Pey|].
        rewrite pow2_inject by lia. rewrite <- pow2_add.
        replace (52 + ey)%Z with (ilog2 y) by lia. exact Ly. }
      apply round_half_even_ge in B. rewrite Zle_Qle in B.
      rewrite pow2_inject in B by lia.
      rewrite (Z.add_comm ey 52), pow2_add. nra. }
    assert (Mid : pow2 (ex + 53) <= pow2 (ey + 52)) by (apply pow2_le; lia).
    lra.
Qed.

Lemma nearest_zero (x : Q) : x == 0 -> nearest x == 0.
Proof.
  intros Zero. unfold nearest.
  pose proof (pow2_pos (fexp x)) as P.
  assert (R : round_half_even (x / pow2 (fexp x)) = 0%Z).
  { apply Z.le_antisymm.
    - apply round_half_even_le. apply Qle_shift_div_r; [exact P|].
      change (inject_Z 0) with 0. lra.
    - apply round_half_even_ge. apply Qle_shift_div_l; [exact P|].
      change (inject_Z 0) with 0. lra. }
  rewrite R. change (inject_Z 0) with 0. ring.
Qed.

(** *** Symmetry: rounding commutes with negation *)

Lemma round_half_even_spec (y : Q) : nearest_even y (round_half_even y).
Proof.
  unfold nearest_even, round_half_even.
  pose proof (Qfloor_le y) as Lo. pose proof (Qlt_floor y) as Hi.
  rewrite inject_Z_plus in Hi. change (inject_Z 1) with 1 in Hi.
  destruct (Qcompare_spec (y - inject_Z (Qfloor y)) (1 # 2)) as [C | C | C].
  - destruct (Z.even (Qfloor y)) eqn:Ev.
    + right. split; [left; exact C | exact Ev].
    + right. split.
      * right. rewrite inject_Z_plus. change (inject_Z 1) with 1. lra.
      * rewrite Z.even_add, Ev. reflexivity.
  - left. lra.
  - left. rewrite inject_Z_plus. change (inject_Z 1) with 1. lra.
Qed.

Lemma nearest_even_unique (y : Q) (k k' : Z) :
  nearest_even y k -> nearest_even y k' -> k = k'.
Proof.
  intros H H'.
  assert (D : -1 <= inject_Z k - inject_Z k' <= 1
              /\ (inject_Z k - inject_Z k' == 1 \/ inject_Z k - inject_Z k' == -1 ->
                  Z.even k = true /\ Z.even k' = true)).
  { destruct H as [[A B] | [[A | A] E]]; destruct H' as [[A' B'] | [[A' | A'] E']];
      (split; [lra | intros [F | F]; try (split; assumption); exfalso; lra]). }
  destruct D as [[D1 D2] Par].
  assert (Ed : inject_Z (k - k') = inject_Z k - inject_Z k').
  { unfold Z.sub. rewrite inject_Z_plus, inject_Z_opp. reflexivity. }
  rewrite <- Ed in D1, D2, Par.
  change (-1) with (inject_Z (-1)) in D1. change 1 with (inject_Z 1) in D2.
  rewrite <- Zle_Qle in D1, D2.
  destruct (Z.eq_dec k k') as [E | NE]; [exact E | exfalso].
  assert (C : (k - k' = 1 \/ k - k' = -1)%Z) by lia.
  destruct Par as [Ev Ev'].
  { destruct C as [C | C]; rewrite C; [left | right]; reflexivity. }
  destruct C as [C | C].
  - replace k with (k' + 1)%Z in Ev by lia.
    rewrite Z.even_add, Ev' in Ev. discriminate Ev.
  - replace k' with (k + 1)%Z in Ev' by lia.
    rewrite Z.even_add, Ev in Ev'. discriminate Ev'.
Qed.

Lemma round_half_even_opp (y y' : Q) :
  y' == - y -> round_half_even y' = (- round_half_even y)%Z.
Proof.
  intros E. apply (nearest_even_unique y'); [apply round_half_even_spec|].
  destruct (round_half_even_spec y) as [[A B] | [[A | A] Ev]].
  - left. rewrite inject_Z_opp. lra.
  - right. split; [right; rewrite inject_Z_opp; lra|].
    rewrite Z.even_opp. exact Ev.
  - right. split; [left; rewrite inject_Z_opp; lra|].
    rewrite Z.even_opp. exact Ev.
Qed.

Lemma fexp_opp (x : Q) : fexp (- x) = fexp x.
Proof.
  unfold fexp. f_equal. f_equal. f_equal.
  destruct x as [a b]. unfold Qopp, Qabs. cbn [Qnum Qden].
  rewrite Z.abs_opp. reflexivity.
Qed.

Lemma nearest_opp (x : Q) : nearest (- x) == - nearest x.
Proof.
  unfold nearest. rewrite fexp_opp.
  rewrite (round_half_even_opp (x / pow2 (fexp x)) (- x / pow2 (fexp x))).
  - rewrite inject_Z_opp. ring.
  - unfold Qdiv. ring.
Qed.

(** Rounding to the nearest float is monotone on all the rationals. *)
Lemma nearest_mono_all (x y : Q) : x <= y -> nearest x <= nearest y.
Proof.
  intros Le.
  destruct (Qlt_le_dec 0 x) as [Px | Nx].
  - apply nearest_mono; assumption.
  - destruct (Qlt_le_dec y 0) as [Ny | Py].
    + pose proof (nearest_opp x) as Ox. pose proof (nearest_opp y) as Oy.
      assert (M : nearest (- y) <= nearest (- x)) by (apply nearest_mono; lra).
      lra.
    + pose proof (nearest_opp x) as Ox.
      assert (A : 0 <= nearest (- x)) by (apply nearest_nonneg; lra).
      pose proof (nearest_nonneg y Py). lra.
Qed.

Lemma fle_overflow (r r' : Q) : r <= r' -> fle (overflow r) (overflow r') = true.
Proof.
  intros Le. unfold overflow. pose proof (pow2_pos 1024) as P.
  destruct (Qle_bool (pow2 1024) r) eqn:B; destruct (Qle_bool (pow2 1024) r') eqn:B';
    destruct (Qle_bool r (- pow2 1024)) eqn:S;
    destruct (Qle_bool r' (- pow2 1024)) eqn:S';
    try reflexivity; cbn [fle];
    repeat match goal with
           | H : Qle_bool _ _ = true |- _ => apply Qle_bool_iff in H
           | H : Qle_bool ?a ?b = false |- _ =>
               assert (b < a)
                 by (apply Qnot_le_lt; intros C; apply Qle_bool_iff in C; congruence);
               clear H
           end;
    try (exfalso; lra).
  apply Qle_bool_iff. exact Le.
Qed.

Lemma round_as_overflow (x : Q) :
  exists r, r == nearest x /\ round x = overflow r.
Proof.
  unfold round. destruct (Qeq_bool x 0) eqn:Z0.
  - apply Qeq_bool_iff in Z0. exists 0. split.
    + symmetry. apply nearest_zero. exact Z0.
    + reflexivity.
  - exists (nearest x). split; reflexivity.
Qed.

(** [round] is monotone, infinities included. *)
Lemma round_mono (x y : Q) : x <= y -> fle (round x) (round y) = true.
Proof.
  intros Le.
  destruct (round_as_overflow x) as (r & Er & ->).
  destruct (round_as_overflow y) as (r' & Er' & ->).
  apply fle_overflow. rewrite Er, Er'. apply nearest_mono_all, Le.
Qed.

End RoundingOrder.

(** ** The success rate *)

Section SuccessRate.

Local Open Scope Q_scope.

Lemma round_zero : round 0 = Fin 0.
Proof. reflexivity. Qed.

Lemma round_one : exists c, round 1 = Fin c /\ c == 1.
Proof. eexists. split; vm_compute; reflexivity. Qed.

Lemma round_hundred : exists c, round 100 = Fin c /\ c == 100.
Proof. eexists. split; vm_compute; reflexivity. Qed.

Lemma float_of_int_hundred : exists h, float_of_int 100 = Ok (Fin h) /\ h == 100.
Proof. eexists. split; vm_compute; reflexivity. Qed.

Lemma fle_Fin (a b : Q) : fle (Fin a) (Fin b) = true <-> a <= b.
Proof. apply Qle_bool_iff. Qed.

(** A float between two finite floats is finite. *)
Lemma fle_between (x : float) (lo hi : Q) :
  fle (Fin lo) x = true ->
  fle x (Fin hi) = true ->
  exists q, x = Fin q /\ lo <= q <= hi.
Proof.
  intros Lo Hi. destruct x as [q | | |]; try discriminate.
  exists q. split; [reflexivity|]. split; apply fle_Fin; assumption.
Qed.

Lemma quotient_nonneg (r n : Z) :
  (0 <= r)%Z -> (0 < n)%Z -> 0 <= inject_Z r / inject_Z n.
Proof.
  intros R N.
  assert (Qn : 0 < inject_Z n) by (change 0 with (inject_Z 0); rewrite <- Zlt_Qlt; lia).
  apply Qle_shift_div_l; [exact Qn|].
  pose proof (inject_Z_nonneg r R). lra.
Qed.

Lemma quotient_le (r r' n : Z) :
  (r <= r')%Z -> (0 < n)%Z -> inject_Z r / inject_Z n <= inject_Z r' / inject_Z n.
Proof.
  intros R N.
  assert (Qn : 0 < inject_Z n) by (change 0 with (inject_Z 0); rewrite <- Zlt_Qlt; lia).
  apply Qle_shift_div_l; [exact Qn|].
  unfold Qdiv. rewrite <- Qmult_assoc, (Qmult_comm (/ inject_Z n)), Qmult_inv_r by lra.
  rewrite Zle_Qle in R. lra.
Qed.

Lemma quotient_le_one (r n : Z) :
  (r <= n)%Z -> (0 < n)%Z -> inject_Z r / inject_Z n <= 1.
Proof.
  intros R N.
  assert (Qn : 0 < inject_Z n) by (change 0 with (inject_Z 0); rewrite <- Zlt_Qlt; lia).
  apply Qle_shift_div_r; [exact Qn|].
  rewrite Zle_Qle in R. lra.
Qed.

(** What [success_rate] evaluates to when there were requests. *)
Lemma success_rate_nonzero (self : TestResult) (v : float) :
  requests_sent self <> 0%Z ->
  success_rate self = Ok v ->
  exists q h,
    round (inject_Z (responses_received self) / inject_Z (requests_sent self)) = Fin q
    /\ float_of_int 100 = Ok (Fin h)
    /\ v = round (q * h).
Proof.
  intros N E. unfold success_rate in E.
  replace (requests_sent self =? 0)%Z with false in E
    by (symmetry; apply Z.eqb_neq; exact N).
  unfold int_truediv in E.
  replace (requests_sent self =? 0)%Z with false in E
    by (symmetry; apply Z.eqb_neq; exact N).
  destruct float_of_int_hundred as (h & Eh & _).
  destruct (round (inject_Z (responses_received self) / inject_Z (requests_sent self)))
    as [q | | |]; cbn [bind] in E; try discriminate E.
  rewrite Eh in E. cbn [bind fmul] in E.
  exists q, h. repeat split; congruence.
Qed.

Lemma success_rate_of_quotient (self : TestResult) (q : Q) :
  requests_sent self <> 0%Z ->
  round (inject_Z (responses_received self) / inject_Z (requests_sent self)) = Fin q ->
  exists h, h == 100 /\ success_rate self = Ok (round (q * h)).
Proof.
  intros N E. destruct float_of_int_hundred as (h & Eh & Hh).
  exists h. split; [exact Hh|].
  unfold success_rate, int_truediv.
  replace (requests_sent self =? 0)%Z with false
    by (symmetry; apply Z.eqb_neq; exact N).
  rewrite E. cbn [bind]. rewrite Eh. reflexivity.
Qed.

End SuccessRate.

(** The model on the values CPython prints: [1 / 3 * 100] is
    [0x1.0aaaaaaaaaaaap+5] and [7 / 9 * 100] is [0x1.371c71c71c71dp+6]. *)
Example success_rate_one_in_three :
  exists v,
    success_rate (mkTestResult "crash_test" 0 None 3 1 [] 0 0 0 0) = Ok (Fin v)
    /\ (v == 4691249611844266 # 140737488355328)%Q.
Proof. eexists. split; vm_compute; reflexivity. Qed.

Example success_rate_seven_in_nine :
  exists v,
    success_rate (mkTestResult "crash_test" 0 None 9 7 [] 0 0 0 0) = Ok (Fin v)
    /\ (v == 5473124547151645 # 70368744177664)%Q.
Proof. eexists. split; vm_compute; reflexivity. Qed.

(** C3, as stated, fails: the value is not confined to [0, 100] for all
    values of the counters.  With one request and two responses counted,
    [success_rate] returns 200.0. *)
Lemma success_rate_exceeds_100 :
  exists v,
    success_rate (mkTestResult "crash_test" 0 None 1 2 [] 0 0 0 0) = Ok (Fin v)
    /\ ~ (v <= 100)%Q.
Proof.
  eexists. split.
  - vm_compute. reflexivity.
  - vm_compute. intros H. apply H. reflexivity.
Qed.

(** C3 (amended).  [success_rate] returns 0 when [requests_sent] is 0.
    When [requests_sent] is positive: it returns a finite value in [0, 100]
    whenever [0 <= responses_received <= requests_sent]; and for a fixed
    [requests_sent] it is non-decreasing in [responses_received], wherever it
    returns (it raises [OverflowError] once the quotient is beyond the
    floats). *)
Theorem success_rate_range_and_order (self other : TestResult) :
  (requests_sent self = 0 -> success_rate self = Ok (Fin 0))
  /\ (0 < requests_sent self ->
      0 <= responses_received self <= requests_sent self ->
      exists v, success_rate self = Ok (Fin v) /\ (0 <= v <= 100)%Q)
  /\ (0 < requests_sent self ->
      requests_sent other = requests_sent self ->
      responses_received self <= responses_received other ->
      forall v v',
        success_rate self = Ok v -> success_rate other = Ok v' ->
        fle v v' = true).
Proof.
  split; [|split].
  - intros Z0. unfold success_rate. rewrite Z0. reflexivity.
  - intros N R.
    pose proof (quotient_nonneg _ _ (proj1 R) N) as Q0.
    pose proof (quotient_le_one _ _ (proj2 R) N) as Q1.
    destruct round_one as (c1 & E1 & H1).
    destruct (fle_between
                (round (inject_Z (responses_received self)
                        / inject_Z (requests_sent self))) 0 c1)
      as (q & Eq & Bq).
    { rewrite <- round_zero. apply round_mono. exact Q0. }
    { rewrite <- E1. apply round_mono. exact Q1. }
    destruct (success_rate_of_quotient self q ltac:(lia) Eq) as (h & Hh & Es).
    destruct round_hundred as (c & Ec & Hc).
    assert (P0 : (0 <= q * h)%Q) by nra.
    assert (P1 : (q * h <= 100)%Q) by nra.
    destruct (fle_between (round (q * h)) 0 c) as (v & Ev & Bv).
    { rewrite <- round_zero. apply round_mono. exact P0. }
    { rewrite <- Ec. apply round_mono. exact P1. }
    exists v. rewrite Es, Ev. split; [reflexivity | lra].
  - intros N Same R v v' E E'.
    destruct (success_rate_nonzero self v ltac:(lia) E) as (q & h & Eq & Eh & Ev).
    destruct (success_rate_nonzero other v' ltac:(lia) E') as (q' & h' & Eq' & Eh' & Ev').
    rewrite Eh in Eh'. injection Eh' as <-.
    rewrite Same in Eq'.
    destruct float_of_int_hundred as (h0 & Eh0 & Hh).
    rewrite Eh in Eh0. injection Eh0 as <-.
    pose proof (quotient_le _ _ _ R N) as Q1.
    assert (Oq : (q <= q')%Q).
    { apply fle_Fin. rewrite <- Eq, <- Eq'. apply round_mono. exact Q1. }
    subst v v'. apply round_mono. nra.
Qed.

Lemma success_rate_range_and_order_witness :
  (0 < requests_sent (mkTestResult "crash_test" 0 None 3 1 [] 0 0 0 0)
   /\ requests_sent (mkTestResult "crash_test" 0 None 3 2 [] 0 0 0 0)
      = requests_sent (mkTestResult "crash_test" 0 None 3 1 [] 0 0 0 0)
   /\ responses_received (mkTestResult "crash_test" 0 None 3 1 [] 0 0 0 0)
      <= responses_received (mkTestResult "crash_test" 0 None 3 2 [] 0 0 0 0)
   /\ 0 <= responses_received (mkTestResult "crash_test" 0 None 3 1 [] 0 0 0 0)
      <= requests_sent (mkTestResult "crash_test" 0 None 3 1 [] 0 0 0 0))
  /\ (exists v,
        success_rate (mkTestResult "crash_test" 0 None 3 1 [] 0 0 0 0) = Ok (Fin v)
        /\ (0 <= v <= 100)%Q)
  /\ (forall v v',
        success_rate (mkTestResult "crash_test" 0 None 3 1 [] 0 0 0 0) = Ok v ->
        success_rate (mkTestResult "crash_test" 0 None 3 2 [] 0 0 0 0) = Ok v' ->
        fle v v' = true).
Proof.
  split; [|split].
  - cbn. lia.
  - apply (proj1 (proj2 (success_rate_range_and_order
                           (mkTestResult "crash_test" 0 None 3 1 [] 0 0 0 0)
                           (mkTestResult "crash_test" 0 None 3 2 [] 0 0 0 0))));
      cbn; lia.
  - apply (proj2 (proj2 (success_rate_range_and_order
                           (mkTestResult "crash_test" 0 None 3 1 [] 0 0 0 0)
                           (mkTestResult "crash_test" 0 None 3 2 [] 0 0 0 0))));
      cbn; lia.
Defined.

(** * Further properties of the harness *)

(** ** The codec beyond the round trip *)

(** X1.  [parse_response] never raises: on every byte string it returns
    [None] or a response, and a response is only ever made from an input of
    at least six bytes, which it carries unchanged in [raw]. *)
Theorem parse_response_total (data : bytes) :
  parse_response data = Ok None
  \/ exists r,
       parse_response data = Ok (Some r) /\ r_raw r = data /\ 6 <= len data.
Proof.
  destruct (Z.ltb_spec (len data) 6) as [Short | Long].
  - left. unfold parse_response.
    replace (len data <? 6) with true by (symmetry; apply Z.ltb_lt; exact Short).
    reflexivity.
  - rewrite parse_response_long by exact Long.
    destruct (negb (int_of_byte (nth 0 data x00) =? CMD_START)
              || negb (int_of_byte (nth (List.length data - 1) data x00) =? CMD_STOP)).
    + left. reflexivity.
    + right. eexists. split; [reflexivity|]. split; [reflexivity | exact Long].
Qed.

(** The three outcomes of [build_command]. *)
Lemma build_command_cases (a c : Z) (p : bytes) :
  (0 <= a <= 255 /\ 0 <= c <= 255 /\ len p <= 65532
   /\ exists f, build_command a c p = Ok f)
  \/ (0 <= a <= 255 /\ 0 <= c <= 255 /\ 65532 < len p
      /\ build_command a c p = Raise StructError)
  \/ (~ (0 <= a <= 255 /\ 0 <= c <= 255)
      /\ build_command a c p = Raise ValueError).
Proof.
  assert (D : (0 <= a <= 255 /\ 0 <= c <= 255) \/ ~ (0 <= a <= 255 /\ 0 <= c <= 255))
    by lia.
  destruct D as [[Ra Rc] | Bad].
  - destruct (Z.le_gt_cases (len p) 65532) as [Short | Long].
    + left. destruct (build_command_frame a c p Ra Rc Short) as (lo & hi & ba & bc & E & _).
      repeat split; try lia. eexists. exact E.
    + right. left. repeat split; try lia. apply build_command_too_long; assumption.
  - right. right. split; [exact Bad|]. apply build_command_bad_int. exact Bad.
Qed.

(** X2.  The only ways [build_command] fails: [ValueError] exactly when the
    address or the command id is outside [0..255], and [struct.error] exactly
    when both are inside and the payload has more than 65532 bytes. *)
Theorem build_command_failures (a c : Z) (p : bytes) :
  (build_command a c p = Raise ValueError <-> ~ (0 <= a <= 255 /\ 0 <= c <= 255))
  /\ (build_command a c p = Raise StructError
      <-> 0 <= a <= 255 /\ 0 <= c <= 255 /\ 65532 < len p)
  /\ (forall e, build_command a c p = Raise e -> e = ValueError \/ e = StructError).
Proof.
  destruct (build_command_cases a c p)
    as [(Ra & Rc & L & f & E) | [(Ra & Rc & L & E) | (B & E)]]; rewrite E;
    repeat split; intros; try discriminate; try lia; auto.
  - right. congruence.
  - left. congruence.
Qed.

Lemma build_command_ok_inv (a c : Z) (p f : bytes) :
  build_command a c p = Ok f ->
  0 <= a <= 255 /\ 0 <= c <= 255 /\ len p <= 65532.
Proof.
  intros E.
  destruct (build_command_cases a c p)
    as [(Ra & Rc & L & _) | [(Ra & Rc & L & E') | (B & E')]];
    [auto | congruence | congruence].
Qed.

Lemma parse_built_frame (a c : Z) (p f : bytes) :
  build_command a c p = Ok f ->
  len f = 7 + len p
  /\ parse_response f = Ok (Some (mkResponse (3 + len p) 0 a c p f))
  /\ 3 + len p = len f - 4.
Proof.
  intros E.
  destruct (build_command_ok_inv a c p f E) as (Ra & Rc & Lp).
  destruct (build_command_frame a c p Ra Rc Lp) as (lo & hi & ba & bc & E' & Hl & Ha & Hc).
  rewrite E' in E. injection E as <-.
  set (frame := x7e :: lo :: hi :: x00 :: ba :: bc :: p ++ [x7e]) in *.
  assert (Lf : len frame = 7 + len p).
  { unfold frame, len. cbn [List.length]. rewrite length_app. cbn [List.length]. lia. }
  assert (Last : nth (List.length frame - 1) frame x00 = x7e).
  { replace (List.length frame - 1)%nat with (6 + List.length p)%nat
      by (unfold len in Lf; lia).
    unfold frame. cbn [Nat.add nth]. rewrite app_nth2 by lia.
    replace (List.length p - List.length p)%nat with 0%nat by lia. reflexivity. }
  split; [exact Lf|]. split; [|lia].
  rewrite parse_response_long by (pose proof (len_nonneg p); lia).
  rewrite Last. cbn [nth frame].
  change (int_of_byte x7e =? CMD_START) with true.
  change (int_of_byte x7e =? CMD_STOP) with true. cbn [negb orb].
  rewrite Hl, Ha, Hc. change (int_of_byte x00) with 0.
  unfold frame. cbn [skipn]. rewrite removelast_last. reflexivity.
Qed.


(** X3.  Whenever [build_command] succeeds (payloads up to 65532 bytes
    included), the frame has 7 + len(payload) bytes and [parse_response]
    reads it back whole: length field 3 + len(payload), which is the frame
    length less 4, type 0, the address, the command id, the payload, and the
    frame itself as [raw]. *)
Theorem build_then_parse (a c : Z) (p f : bytes) :
  build_command a c p = Ok f ->
  len f = 7 + len p
  /\ parse_response f = Ok (Some (mkResponse (3 + len p) 0 a c p f))
  /\ 3 + len p = len f - 4.
Proof. apply parse_built_frame. Qed.

Lemma build_then_parse_witness :
  build_command SCB_ADDRESS CMD_GET_SCB_DATA [] = Ok probe_frame
  /\ len probe_frame = 7 + len (@nil byte)
  /\ parse_response probe_frame
     = Ok (Some (mkResponse (3 + len (@nil byte)) 0 SCB_ADDRESS CMD_GET_SCB_DATA
                   [] probe_frame))
  /\ 3 + len (@nil byte) = len probe_frame - 4.
Proof.
  split.
  - reflexivity.
  - apply (build_then_parse SCB_ADDRESS CMD_GET_SCB_DATA [] probe_frame).
    reflexivity.
Defined.

(** X4.  [build_command] is injective: two calls that return the same frame
    were given the same address, command id and payload. *)
Theorem build_command_injective (a c a' c' : Z) (p p' f : bytes) :
  build_command a c p = Ok f ->
  build_command a' c' p' = Ok f ->
  a = a' /\ c = c' /\ p = p'.
Proof.
  intros E E'.
  destruct (parse_built_frame a c p f E) as (_ & P & _).
  destruct (parse_built_frame a' c' p' f E') as (_ & P' & _).
  rewrite P in P'. injection P' as _ Ha Hc Hp. auto.
Qed.

Lemma build_command_injective_witness :
  (build_command 61 1 [x2a] = Ok [x7e; x04; x00; x00; x3d; x01; x2a; x7e]
   /\ build_command 61 1 [x2a] = Ok [x7e; x04; x00; x00; x3d; x01; x2a; x7e])
  /\ (61 = 61 /\ 1 = 1 /\ [x2a] = [x2a]).
Proof.
  split.
  - split; reflexivity.
  - apply (build_command_injective 61 1 61 1 [x2a] [x2a]
             [x7e; x04; x00; x00; x3d; x01; x2a; x7e]); reflexivity.
Defined.

(** X5.  Decode, then encode.  A parsed input of at least seven bytes whose
    type byte is 0 and whose length field is 3 + len(payload) is exactly the
    frame [build_command] makes from the parsed address, command id and
    payload. *)
Theorem parse_then_build (data : bytes) (r : Response) :
  parse_response data = Ok (Some r) ->
  7 <= len data ->
  r_type r = 0 ->
  r_length r = 3 + len (r_payload r) ->
  build_command (r_can_addr r) (r_cmd_id r) (r_payload r) = Ok data.
Proof.
  intros P L Ty Ln.
  rewrite parse_response_long in P by lia.
  destruct (int_of_byte (nth 0 data x00) =? CMD_START) eqn:M0;
    cbn [negb orb] in P; [|discriminate P].
  destruct (int_of_byte (nth (List.length data - 1) data x00) =? CMD_STOP) eqn:M1;
    cbn [negb] in P; [|discriminate P].
  apply marker_byte in M0. apply marker_byte in M1.
  match type of P with
  | Ok (Some ?x) = _ => assert (Er : r = x) by congruence
  end.
  subst r. clear P. cbn [r_type r_length r_payload r_can_addr r_cmd_id] in *.
  destruct data as [|b0 [|b1 [|b2 [|b3 [|b4 [|b5 rest]]]]]];
    try (unfold len in L; cbn in L; lia).
  assert (NE : rest <> []).
  { intros ->. unfold len in L. cbn in L. lia. }
  destruct (exists_last NE) as (pay & z & ->).
  cbn [nth skipn] in *. rewrite removelast_last in *.
  assert (Z7 : z = x7e).
  { rewrite <- M1. cbn [List.length]. rewrite Nat.sub_succ, Nat.sub_0_r.
    cbn [nth]. rewrite length_app. cbn [List.length].
    replace (List.length pay + 1)%nat with (S (List.length pay)) by lia.
    cbn [nth]. rewrite app_nth2 by lia.
    replace (List.length pay - List.length pay)%nat with 0%nat by lia.
    reflexivity. }
  subst z b0.
  pose proof (int_of_byte_range b1) as R1. pose proof (int_of_byte_range b2) as R2.
  pose proof (int_of_byte_range b4) as R4. pose proof (int_of_byte_range b5) as R5.
  destruct (build_command_frame (int_of_byte b4) (int_of_byte b5) pay R4 R5)
    as (lo & hi & ba & bc & E & Hl & Ha & Hc); [lia|].
  rewrite E.
  pose proof (int_of_byte_range lo) as Rl. pose proof (int_of_byte_range hi) as Rh.
  assert (lo = b1) by (apply int_of_byte_inj; lia).
  assert (hi = b2) by (apply int_of_byte_inj; lia).
  assert (b3 = x00) by (apply int_of_byte_inj; rewrite Ty; reflexivity).
  apply int_of_byte_inj in Ha. apply int_of_byte_inj in Hc.
  subst. reflexivity.
Qed.

Lemma parse_then_build_witness :
  (parse_response [x7e; x04; x00; x00; x3d; x01; x2a; x7e]
   = Ok (Some (mkResponse 4 0 61 1 [x2a] [x7e; x04; x00; x00; x3d; x01; x2a; x7e]))
   /\ 7 <= len [x7e; x04; x00; x00; x3d; x01; x2a; x7e]
   /\ 0 = 0
   /\ 4 = 3 + len [x2a])
  /\ build_command 61 1 [x2a] = Ok [x7e; x04; x00; x00; x3d; x01; x2a; x7e].
Proof.
  split.
  - repeat split; unfold len; cbn; lia.
  - apply (parse_then_build [x7e; x04; x00; x00; x3d; x01; x2a; x7e]
             (mkResponse 4 0 61 1 [x2a] [x7e; x04; x00; x00; x3d; x01; x2a; x7e])).
    + reflexivity.
    + unfold len. cbn. lia.
    + reflexivity.
    + reflexivity.
Defined.

(** ** [send_command] *)

Lemma send_command_eq (env : Env) (sock : connection) (cmd : bytes) (w : World) :
  send_command env sock cmd w =
    (Val (match sock (tick w) cmd with
          | Some delivered =>
              if 0 <? len (recv 4096 delivered) then
                match parse_response (recv 4096 delivered) with
                | Ok parsed => parsed
                | Raise _ => None
                end
              else None
          | None => None
          end),
     after_interaction env w).
Proof. reflexivity. Qed.



Lemma parse_response_ok (data : bytes) : exists res, parse_response data = Ok res.
Proof.
  destruct (Z.ltb_spec (len data) 6) as [Short | Long].
  - exists None. unfold parse_response.
    replace (len data <? 6) with true by (symmetry; apply Z.ltb_lt; exact Short).
    reflexivity.
  - rewrite parse_response_long by exact Long.
    destruct (negb (int_of_byte (nth 0 data x00) =? CMD_START)
              || negb (int_of_byte (nth (List.length data - 1) data x00) =? CMD_STOP));
      eexists; reflexivity.
Qed.


(** What [send_command] makes of the bytes read. *)
Lemma send_command_reply (data : bytes) (r : Response) :
  (if 0 <? len data
   then match parse_response data with Ok parsed => parsed | Raise _ => None end
   else None) = Some r
  <-> parse_response data = Ok (Some r).
Proof.
  destruct (parse_response_ok data) as (res & P). rewrite P.
  destruct (Z.ltb_spec 0 (len data)) as [NonEmpty | Empty].
  - split; congruence.
  - split; [discriminate|]. intros E.
    unfold parse_response in P.
    replace (len data <? 6) with true in P by (symmetry; apply Z.ltb_lt; lia).
    congruence.
Qed.

(** X6.  [send_command] never raises and always takes exactly one exchange.
    It returns a response exactly when the bytes that [recv(4096)] takes from
    what the exchange delivered are accepted by [parse_response], and then
    that response; a failed call, an empty reply and a malformed reply all
    give [None]. *)
Theorem send_command_result (env : Env) (sock : connection) (cmd : bytes)
    (w : World) :
  exists res,
    send_command env sock cmd w = (Val res, after_interaction env w)
    /\ (forall r,
          res = Some r
          <-> exists delivered,
                sock (tick w) cmd = Some delivered
                /\ parse_response (recv 4096 delivered) = Ok (Some r)).
Proof.
  rewrite send_command_eq. eexists. split; [reflexivity|].
  intros r. destruct (sock (tick w) cmd) as [delivered|].
  - rewrite send_command_reply. split.
    + intros P. exists delivered. split; [reflexivity | exact P].
    + intros (delivered' & E & P). injection E as <-. exact P.
  - split; [discriminate|]. intros (data & E & _). discriminate E.
Qed.



(** ** [wait_for_device], poll by poll *)

(** One turn of the loop, whatever the sign of the interval. *)
Lemma wait_for_device_loop_turn (env : Env) (fuel : nat) (ip : string)
    (end_time interval : Q) (w : World) :
  wait_for_device_loop env (S fuel) ip end_time interval w =
    if Qltb (now w) end_time then
      if answers env (tick w) ip 2 then (Val true, after_interaction env w)
      else if Qltb interval 0 then (Exc ValueError, after_interaction env w)
      else
        wait_for_device_loop env fuel ip end_time interval
          (mkWorld (now w + elapsed env (tick w) + interval)%Q (S (tick w)) (trace w))
    else (Val false, w).
Proof.
  cbn [wait_for_device_loop]. unfold mbind at 1. unfold time_time at 1.
  destruct (Qltb (now w) end_time); [|reflexivity].
  unfold mbind at 1. rewrite check_device_alive_eq.
  destruct (answers env (tick w) ip 2); [reflexivity|].
  unfold mbind, time_sleep. cbn [now tick trace after_interaction].
  destruct (Qltb interval 0); reflexivity.
Qed.

Lemma after_failed_polls_tick (env : Env) (interval : Q) (k : nat) (w : World) :
  tick (after_failed_polls env interval k w) = (tick w + k)%nat.
Proof.
  revert w. induction k as [|k IH]; intros w; cbn [after_failed_polls].
  - lia.
  - rewrite IH. cbn [tick]. lia.
Qed.

Lemma after_failed_polls_trace (env : Env) (interval : Q) (k : nat) (w : World) :
  trace (after_failed_polls env interval k w) = trace w.
Proof.
  revert w. induction k as [|k IH]; intros w; cbn [after_failed_polls].
  - reflexivity.
  - rewrite IH. reflexivity.
Qed.

Section Polling.

Variable env : Env.
Variable ip : string.
Variables end_time interval : Q.

(** The loop returns [True] right after the first answered probe, when that
    probe and the ones before it were started before the deadline. *)
Lemma wait_for_device_loop_recovers (k : nat) :
  forall (fuel : nat) (w : World),
    (0 <= interval)%Q ->
    (k < fuel)%nat ->
    (forall i, (i < k)%nat -> answers env (tick w + i) ip 2 = false) ->
    answers env (tick w + k) ip 2 = true ->
    (forall i, (i <= k)%nat ->
               (now (after_failed_polls env interval i w) < end_time)%Q) ->
    wait_for_device_loop env fuel ip end_time interval w
    = (Val true, after_interaction env (after_failed_polls env interval k w)).
Proof.
  induction k as [|k IH]; intros fuel w I F Fail Ans Early;
    (destruct fuel as [|fuel]; [lia|]); rewrite wait_for_device_loop_turn.
  - replace (Qltb (now w) end_time) with true
      by (symmetry; apply Qltb_lt; apply (Early 0%nat); lia).
    rewrite Nat.add_0_r in Ans. rewrite Ans. reflexivity.
  - replace (Qltb (now w) end_time) with true
      by (symmetry; apply Qltb_lt; apply (Early 0%nat); lia).
    pose proof (Fail 0%nat ltac:(lia)) as F0. rewrite Nat.add_0_r in F0.
    rewrite F0.
    replace (Qltb interval 0) with false by (symmetry; apply Qltb_ge; exact I).
    cbn [after_failed_polls]. apply IH; try assumption; try lia.
    + intros i Hi. cbn [tick].
      replace (S (tick w) + i)%nat with (tick w + S i)%nat by lia.
      apply Fail. lia.
    + cbn [tick]. replace (S (tick w) + k)%nat with (tick w + S k)%nat by lia.
      exact Ans.
    + intros i Hi. apply (Early (S i)). lia.
Qed.

(** Whatever the loop returns, it got there by a run of unanswered polls
    started before the deadline: [True] comes from one more probe, started
    before the deadline and answered, [False] from the deadline being
    reached. *)
Lemma wait_for_device_loop_history (fuel : nat) :
  forall (w w' : World) (b : bool),
    wait_for_device_loop env fuel ip end_time interval w = (Val b, w') ->
    exists k,
      (forall i, (i < k)%nat ->
                 answers env (tick w + i) ip 2 = false
                 /\ (now (after_failed_polls env interval i w) < end_time)%Q)
      /\ if b then
           answers env (tick w + k) ip 2 = true
           /\ (now (after_failed_polls env interval k w) < end_time)%Q
           /\ w' = after_interaction env (after_failed_polls env interval k w)
         else
           (end_time <= now (after_failed_polls env interval k w))%Q
           /\ w' = after_failed_polls env interval k w.
Proof.
  induction fuel as [|fuel IH]; intros w w' b E; [discriminate E|].
  rewrite wait_for_device_loop_turn in E.
  destruct (Qltb (now w) end_time) eqn:T.
  - apply Qltb_lt in T.
    destruct (answers env (tick w) ip 2) eqn:A.
    + injection E as <- <-. exists 0%nat. split; [intros i Hi; lia|].
      rewrite Nat.add_0_r. cbn [after_failed_polls]. auto.
    + destruct (Qltb interval 0); [discriminate E|].
      destruct (IH _ _ _ E) as (k & Before & Last).
      exists (S k). split.
      * intros [|i] Hi.
        -- rewrite Nat.add_0_r. cbn [after_failed_polls]. auto.
        -- cbn [after_failed_polls].
           replace (tick w + S i)%nat with (S (tick w) + i)%nat by lia.
           apply (Before i). lia.
      * cbn [after_failed_polls].
        replace (tick w + S k)%nat with (S (tick w) + k)%nat by lia.
        exact Last.
  - apply Qltb_ge in T. injection E as <- <-.
    exists 0%nat. split; [intros i Hi; lia|]. cbn [after_failed_polls]. auto.
Qed.

End Polling.

(** X8.  The polling loop of [wait_for_device], for whatever deadline the call
    has computed, returns [True] right after the first answered probe: when
    the first [k] probes get no answer, the next one does, and the clock read
    at the loop test before each of them is below the deadline, the loop
    returns [True] having made [k + 1] probes and slept [k] times, and not a
    moment later. *)
Theorem wait_for_device_recovers (env : Env) (ip : string)
    (deadline interval : Q) (k fuel : nat) (w : World) :
  (0 <= interval)%Q ->
  (k < fuel)%nat ->
  (forall i, (i < k)%nat -> answers env (tick w + i) ip 2 = false) ->
  answers env (tick w + k) ip 2 = true ->
  (forall i, (i <= k)%nat ->
             (now (after_failed_polls env interval i w) < deadline)%Q) ->
  wait_for_device_loop env fuel ip deadline interval w
  = (Val true, after_interaction env (after_failed_polls env interval k w)).
Proof.
  intros I F Fail Ans Early.
  apply wait_for_device_loop_recovers; assumption.
Qed.

Lemma wait_for_device_recovers_witness :
  ((0 <= 2)%Q
   /\ (1 < 5)%nat
   /\ (forall i, (i < 1)%nat ->
                 answers (blinking_device 0) (tick world0 + i) lab_ip 2 = false)
   /\ answers (blinking_device 0) (tick world0 + 1) lab_ip 2 = true
   /\ (forall i, (i <= 1)%nat ->
                 (now (after_failed_polls (blinking_device 0) 2 i world0) < 60)%Q))
  /\ wait_for_device_loop (blinking_device 0) 5 lab_ip 60 2 world0
     = (Val true,
        after_interaction (blinking_device 0)
          (after_failed_polls (blinking_device 0) 2 1 world0)).
Proof.
  assert (H1 : (0 <= 2)%Q) by (vm_compute; discriminate).
  assert (H3 : forall i, (i < 1)%nat ->
                 answers (blinking_device 0) (tick world0 + i) lab_ip 2 = false).
  { intros i Hi. assert (i = 0)%nat by lia. subst i. reflexivity. }
  assert (H5 : forall i, (i <= 1)%nat ->
                 (now (after_failed_polls (blinking_device 0) 2 i world0) < 60)%Q).
  { intros i Hi. assert (D : (i = 0 \/ i = 1)%nat) by lia.
    destruct D as [-> | ->]; reflexivity. }
  split.
  - repeat split; auto.
  - exact (wait_for_device_recovers (blinking_device 0) lab_ip 60 2 1 5 world0
             H1 ltac:(lia) H3 eq_refl H5).
Defined.

(** X9.  What a returned [wait_for_device] tells: [True] means that a probe
    started before the deadline got an answer, after a run of unanswered
    probes each followed by a sleep; [False] means that every probe made got
    no answer and that the deadline had passed when the loop looked at the
    clock.  In both cases the world is the one those polls leave. *)
Theorem wait_for_device_history (env : Env) (fuel : nat) (ip : string)
    (timeout interval : Q) (w w' : World) (b : bool) :
  wait_for_device env fuel ip timeout interval w = (Val b, w') ->
  exists k,
    (forall i, (i < k)%nat ->
               answers env (tick w + i) ip 2 = false
               /\ (now (after_failed_polls env interval i w) < now w + timeout)%Q)
    /\ if b then
         answers env (tick w + k) ip 2 = true
         /\ (now (after_failed_polls env interval k w) < now w + timeout)%Q
         /\ w' = after_interaction env (after_failed_polls env interval k w)
       else
         (now w + timeout <= now (after_failed_polls env interval k w))%Q
         /\ w' = after_failed_polls env interval k w.
Proof.
  rewrite wait_for_device_eq. apply wait_for_device_loop_history.
Qed.

Lemma wait_for_device_history_witness :
  wait_for_device dead_device 40 lab_ip 9 2 world0
  = (Val false, after_failed_polls dead_device 2 2 world0)
  /\ exists k,
       (forall i, (i < k)%nat ->
                  answers dead_device (tick world0 + i) lab_ip 2 = false
                  /\ (now (after_failed_polls dead_device 2 i world0)
                      < now world0 + 9)%Q)
       /\ (now world0 + 9 <= now (after_failed_polls dead_device 2 k world0))%Q
       /\ after_failed_polls dead_device 2 2 world0
          = after_failed_polls dead_device 2 k world0.
Proof.
  assert (E : wait_for_device dead_device 40 lab_ip 9 2 world0
              = (Val false, after_failed_polls dead_device 2 2 world0))
    by (vm_compute; reflexivity).
  split; [exact E|].
  exact (wait_for_device_history dead_device 40 lab_ip 9 2 world0
           (after_failed_polls dead_device 2 2 world0) false E).
Defined.

(** X10.  Edge cases of [wait_for_device].  With a timeout that is not
    positive it returns [False] at once, without a single probe.  And its
    loop, entered with the clock below the deadline, whatever that deadline
    is, with a negative poll interval and a first probe that gets no answer,
    does not return: [time.sleep] raises [ValueError]. *)
Theorem wait_for_device_edges (env : Env) (fuel : nat) (ip : string)
    (timeout deadline interval : Q) (w : World) :
  ((timeout <= 0)%Q ->
   wait_for_device env (S fuel) ip timeout interval w = (Val false, w))
  /\ ((now w < deadline)%Q -> (interval < 0)%Q ->
      answers env (tick w) ip 2 = false ->
      wait_for_device_loop env (S fuel) ip deadline interval w
      = (Exc ValueError, after_interaction env w)).
Proof.
  split.
  - intros T. rewrite wait_for_device_eq, wait_for_device_loop_turn.
    replace (Qltb (now w) (now w + timeout)) with false
      by (symmetry; apply Qltb_ge; lra).
    reflexivity.
  - intros T I A. rewrite wait_for_device_loop_turn.
    replace (Qltb (now w) deadline) with true
      by (symmetry; apply Qltb_lt; exact T).
    rewrite A.
    replace (Qltb interval 0) with true by (symmetry; apply Qltb_lt; exact I).
    reflexivity.
Qed.

Lemma wait_for_device_edges_witness :
  ((0 <= 0)%Q
   /\ wait_for_device dead_device 1 lab_ip 0 2 world0 = (Val false, world0))
  /\ ((now world0 < 60)%Q /\ (-1 < 0)%Q
      /\ answers dead_device (tick world0) lab_ip 2 = false
      /\ wait_for_device_loop dead_device 1 lab_ip 60 (-1) world0
         = (Exc ValueError, after_interaction dead_device world0)).
Proof.
  split.
  - split; [vm_compute; discriminate|].
    apply (proj1 (wait_for_device_edges dead_device 0 lab_ip 0 60 2 world0)).
    vm_compute. discriminate.
  - split; [reflexivity|]. split; [reflexivity|]. split; [reflexivity|].
    apply (proj2 (wait_for_device_edges dead_device 0 lab_ip 0 60 (-1) world0));
      reflexivity.
Defined.

(** ** More on the result record *)

Section RateFacts.

Local Open Scope Q_scope.

(** Rounding a rational equal to a float gives that float. *)
Lemma round_sandwich (x y c : Q) :
  round y = Fin c -> x == y -> exists q, round x = Fin q /\ q == c.
Proof.
  intros E Same.
  destruct (fle_between (round x) c c) as (q & Eq & Bq).
  - rewrite <- E. apply round_mono. lra.
  - rewrite <- E. apply round_mono. lra.
  - exists q. split; [exact Eq | lra].
Qed.

Lemma round_not_nan (x : Q) : round x <> NaN.
Proof.
  unfold round, overflow.
  destruct (Qeq_bool x 0); [discriminate|].
  destruct (Qle_bool (pow2 1024) (nearest x)); [discriminate|].
  destruct (Qle_bool (nearest x) (- pow2 1024)); discriminate.
Qed.

Lemma success_rate_in_range (self : TestResult) :
  (0 < requests_sent self)%Z ->
  (0 <= responses_received self <= requests_sent self)%Z ->
  exists v, success_rate self = Ok (Fin v) /\ 0 <= v <= 100.
Proof.
  intros N R.
  pose proof (quotient_nonneg _ _ (proj1 R) N) as Q0.
  pose proof (quotient_le_one _ _ (proj2 R) N) as Q1.
  destruct round_one as (c1 & E1 & H1).
  destruct (fle_between
              (round (inject_Z (responses_received self)
                      / inject_Z (requests_sent self))) 0 c1)
    as (q & Eq & Bq).
  { rewrite <- round_zero. apply round_mono. exact Q0. }
  { rewrite <- E1. apply round_mono. exact Q1. }
  destruct (success_rate_of_quotient self q ltac:(lia) Eq) as (h & Hh & Es).
  destruct round_hundred as (c & Ec & Hc).
  assert (P0 : 0 <= q * h) by nra.
  assert (P1 : q * h <= 100) by nra.
  destruct (fle_between (round (q * h)) 0 c) as (v & Ev & Bv).
  { rewrite <- round_zero. apply round_mono. exact P0. }
  { rewrite <- Ec. apply round_mono. exact P1. }
  exists v. rewrite Es, Ev. split; [reflexivity | lra].
Qed.

Lemma success_rate_exact (self : TestResult) (x c y d : Q) :
  (requests_sent self <> 0)%Z ->
  inject_Z (responses_received self) / inject_Z (requests_sent self) == x ->
  round x = Fin c ->
  c * 100 == y ->
  round y = Fin d ->
  exists v, success_rate self = Ok (Fin v) /\ v == d.
Proof.
  intros N Ex Ec Ey Ed.
  destruct (round_sandwich _ x c Ec Ex) as (q & Eq & Hq).
  destruct (success_rate_of_quotient self q N Eq) as (h & Hh & Es).
  destruct (round_sandwich (q * h) y d Ed) as (v & Ev & Hv); [nra|].
  exists v. rewrite Es, Ev. split; [reflexivity | exact Hv].
Qed.

Lemma quotient_self (n : Z) : (0 < n)%Z -> inject_Z n / inject_Z n == 1.
Proof.
  intros N.
  assert (Qn : 0 < inject_Z n) by (change 0 with (inject_Z 0); rewrite <- Zlt_Qlt; lia).
  field. lra.
Qed.

Lemma quotient_zero (n : Z) : (0 < n)%Z -> inject_Z 0 / inject_Z n == 0.
Proof.
  intros N.
  assert (Qn : 0 < inject_Z n) by (change 0 with (inject_Z 0); rewrite <- Zlt_Qlt; lia).
  change (inject_Z 0) with 0. field. lra.
Qed.

End RateFacts.

(** X11.  [success_rate] never fails on the division by zero it guards
    against and never returns a NaN: the only exception it can raise is
    [OverflowError], and only with a non-zero [requests_sent]. *)
Theorem success_rate_outcomes (self : TestResult) :
  (forall e, success_rate self = Raise e ->
             e = OverflowError /\ requests_sent self <> 0)
  /\ (forall v, success_rate self = Ok v -> v <> NaN).
Proof.
  unfold success_rate, int_truediv.
  destruct (requests_sent self =? 0) eqn:Z0.
  - split; intros; [discriminate | congruence].
  - apply Z.eqb_neq in Z0.
    destruct float_of_int_hundred as (h & Eh & _). rewrite Eh.
    destruct (round (inject_Z (responses_received self)
                     / inject_Z (requests_sent self))) as [q | | |];
      cbn [bind fmul]; split; intros x E; try discriminate E.
    + injection E as <-. apply round_not_nan.
    + split; [congruence | exact Z0].
    + split; [congruence | exact Z0].
    + split; [congruence | exact Z0].
Qed.

(** X12.  The two ends of the scale are exact: with a positive
    [requests_sent], [success_rate] is 0 when no response was counted and
    exactly 100 when every request was answered, however large the counters. *)
Theorem success_rate_ends (self : TestResult) :
  0 < requests_sent self ->
  (responses_received self = 0 ->
   exists v, success_rate self = Ok (Fin v) /\ (v == 0)%Q)
  /\ (responses_received self = requests_sent self ->
      exists v, success_rate self = Ok (Fin v) /\ (v == 100)%Q).
Proof.
  intros N. split; intros R.
  - destruct (success_rate_exact self 0 0 0 0) as (v & E & H);
      try reflexivity; [lia | rewrite R; apply quotient_zero; exact N |].
    exists v. auto.
  - destruct round_one as (c1 & E1 & H1). destruct round_hundred as (c & Ec & Hc).
    destruct (success_rate_exact self 1 c1 100 c) as (v & E & H);
      try assumption; [lia | rewrite R; apply quotient_self; exact N | | ].
    + rewrite H1. reflexivity.
    + exists v. split; [exact E|]. rewrite H. exact Hc.
Qed.

Lemma success_rate_ends_witness :
  0 < requests_sent (mkTestResult "crash_test" 0 None 7 7 [] 0 0 0 0)
  /\ (responses_received (mkTestResult "crash_test" 0 None 7 7 [] 0 0 0 0)
      = requests_sent (mkTestResult "crash_test" 0 None 7 7 [] 0 0 0 0))
  /\ exists v,
       success_rate (mkTestResult "crash_test" 0 None 7 7 [] 0 0 0 0) = Ok (Fin v)
       /\ (v == 100)%Q.
Proof.
  split; [reflexivity|]. split; [reflexivity|].
  apply (proj2 (success_rate_ends (mkTestResult "crash_test" 0 None 7 7 [] 0 0 0 0)
                  eq_refl)).
  reflexivity.
Defined.

(** X13.  On a result whose counters satisfy
    [0 <= responses_received <= requests_sent], [to_dict] succeeds; the
    record carries the counters, the name and the time stamps as they are, a
    success rate in [0, 100], the duration [duration_seconds] gives, and the
    whole error log when it has at most twenty entries. *)
Theorem to_dict_of_sane_result (self : TestResult) :
  0 <= responses_received self <= requests_sent self ->
  exists d v,
    to_dict self = Ok d
    /\ d_success_rate_percent d = Fin v /\ (0 <= v <= 100)%Q
    /\ d_test_name d = test_name self
    /\ d_start_time d = start_time self /\ d_end_time d = end_time self
    /\ d_duration_seconds d = duration_seconds self
    /\ d_requests_sent d = requests_sent self
    /\ d_responses_received d = responses_received self
    /\ d_timeouts d = timeouts self
    /\ d_connection_failures d = connection_failures self
    /\ d_device_unresponsive_events d = device_unresponsive_events self
    /\ d_possible_crashes d = possible_crashes self
    /\ (len (errors self) <= 20 -> d_errors d = errors self).
Proof.
  intros R.
  assert (Rate : exists v, success_rate self = Ok (Fin v) /\ (0 <= v <= 100)%Q).
  { destruct (Z.eq_dec (requests_sent self) 0) as [Z0 | NZ].
    - exists 0%Q. split; [|lra]. unfold success_rate. rewrite Z0. reflexivity.
    - apply success_rate_in_range; lia. }
  destruct Rate as (v & E & B).
  unfold to_dict. rewrite E. cbn [bind].
  eexists _, v. split; [reflexivity|].
  cbn [d_success_rate_percent d_test_name d_start_time d_end_time
       d_duration_seconds d_requests_sent d_responses_received d_timeouts
       d_connection_failures d_device_unresponsive_events d_possible_crashes
       d_errors].
  repeat split; try reflexivity; try apply B.
  intros L. rewrite slice_from_last_20.
  replace (List.length (errors self) - 20)%nat with 0%nat by (unfold len in L; lia).
  reflexivity.
Qed.

Lemma to_dict_of_sane_result_witness :
  (0 <= responses_received (mkTestResult "crash_test" 0 (Some 5%Q) 9 7 [] 0 0 1 1)
   <= requests_sent (mkTestResult "crash_test" 0 (Some 5%Q) 9 7 [] 0 0 1 1))
  /\ exists d v,
       to_dict (mkTestResult "crash_test" 0 (Some 5%Q) 9 7 [] 0 0 1 1) = Ok d
       /\ d_success_rate_percent d = Fin v /\ (0 <= v <= 100)%Q
       /\ d_requests_sent d = 9 /\ d_responses_received d = 7
       /\ d_possible_crashes d = 1.
Proof.
  split.
  - cbn. lia.
  - destruct (to_dict_of_sane_result
                (mkTestResult "crash_test" 0 (Some 5%Q) 9 7 [] 0 0 1 1))
      as (d & v & E & Rate & B & _ & _ & _ & _ & Rq & Rs & _ & _ & _ & Pc & _).
    + cbn. lia.
    + exists d, v. repeat split; try assumption; apply B.
Defined.

(** ** What the world does under the harness *)

Lemma advances_trans (env : Env) (w1 w2 w3 : World) :
  advances env w1 w2 -> advances env w2 w3 -> advances env w1 w3.
Proof.
  intros H12 H23. induction H12 as [w | w w' _ IH | w w' _ IH | d w w' D _ IH].
  - exact H23.
  - apply advances_interact, IH, H23.
  - apply advances_tick, IH, H23.
  - apply (advances_sleep env d); [exact D | apply IH, H23].
Qed.

Lemma advances_trace (env : Env) (w w' : World) :
  advances env w w' -> trace w' = trace w.
Proof.
  induction 1 as [w | w w' _ IH | w w' _ IH | d w w' D _ IH];
    [reflexivity | exact IH | exact IH | exact IH].
Qed.



Section MovesOn.

Variable env : Env.

Lemma moves_on_ret {A : Type} (a : A) : moves_on env (ret a).
Proof. intros w. apply advances_refl. Qed.

Lemma moves_on_bind {A B : Type} (m : M World A) (k : A -> M World B) :
  moves_on env m -> (forall a, moves_on env (k a)) -> moves_on env (mbind m k).
Proof.
  intros Hm Hk w. unfold mbind. specialize (Hm w).
  destruct (m w) as [[a | e |] w']; cbn [snd] in *; auto.
  eapply advances_trans; [exact Hm | apply Hk].
Qed.

Lemma moves_on_time_time : moves_on env time_time.
Proof. intros w. apply advances_refl. Qed.

Lemma moves_on_time_sleep (d : Q) : moves_on env (time_sleep d).
Proof.
  intros w. unfold time_sleep. destruct (Qltb d 0) eqn:N; cbn [snd].
  - apply advances_refl.
  - apply Qltb_ge in N. apply (advances_sleep env d); [exact N | apply advances_refl].
Qed.

Lemma moves_on_interact {A : Type} (f : nat -> A) : moves_on env (interact env f).
Proof. intros w. apply advances_interact, advances_refl. Qed.

Lemma moves_on_read_stop_flag : moves_on env (read_stop_flag env).
Proof. intros w. apply advances_tick, advances_refl. Qed.

Lemma moves_on_check_device_alive (ip : string) (timeout : Q) :
  moves_on env (check_device_alive env ip timeout).
Proof.
  intros w. rewrite check_device_alive_eq. apply advances_interact, advances_refl.
Qed.

Lemma moves_on_wait_for_device_loop (ip : string) (end_time interval : Q)
    (fuel : nat) :
  moves_on env (wait_for_device_loop env fuel ip end_time interval).
Proof.
  induction fuel as [|fuel IH]; [intros w; apply advances_refl|].
  cbn [wait_for_device_loop].
  apply moves_on_bind; [apply moves_on_time_time|]. intros t.
  destruct (Qltb t end_time); [|apply moves_on_ret].
  apply moves_on_bind; [apply moves_on_check_device_alive|]. intros alive.
  destruct alive; [apply moves_on_ret|].
  apply moves_on_bind; [apply moves_on_time_sleep|]. intros _. exact IH.
Qed.

Lemma moves_on_wait_for_device (fuel : nat) (ip : string) (timeout interval : Q) :
  moves_on env (wait_for_device env fuel ip timeout interval).
Proof.
  unfold wait_for_device.
  apply moves_on_bind; [apply moves_on_time_time|]. intros t.
  apply moves_on_wait_for_device_loop.
Qed.

Lemma moves_on_sock_connect (ip : string) (timeout : Q) :
  moves_on env (sock_connect env ip timeout).
Proof.
  intros w. unfold sock_connect, interact.
  destruct (io_ok env (tick w)); apply advances_interact, advances_refl.
Qed.

Lemma moves_on_open_sockets (n : nat) (ip : string) (timeout : Q) :
  moves_on env (open_sockets env n ip timeout).
Proof.
  induction n as [|n IH]; cbn [open_sockets]; [apply moves_on_ret|].
  apply moves_on_bind; [apply moves_on_sock_connect|]. intros s.
  apply moves_on_bind; [exact IH|]. intros rest. apply moves_on_ret.
Qed.

Lemma moves_on_close_all (sockets : list socket) :
  moves_on env (close_all env sockets).
Proof.
  induction sockets as [|s rest IH]; cbn [close_all]; [apply moves_on_ret|].
  apply moves_on_bind; [apply moves_on_interact|]. intros _. exact IH.
Qed.

End MovesOn.

(** ** Invariants of the whole tester

    A property [I] of the tester and the world that survives every kind of
    step the harness takes is kept by every method and by the round loop,
    whatever their result.  The steps: the world advancing, an attack event,
    a bump of [requests_sent] or of [responses_received], the count of an
    unanswered probe, and a crash verdict under one of the four attack
    names. *)

Section RunInvariant.

Variable env : Env.
Variable I : Run -> Prop.

Hypothesis I_advance :
  forall t w w', advances env w w' -> I (t, w) -> I (t, w').
Hypothesis I_attack :
  forall t w name,
    I (t, w) -> I (t, mkWorld (now w) (tick w) (EvAttack name :: trace w)).
Hypothesis I_sent :
  forall t w n, 0 <= n -> I (t, w) -> I (with_result (add_requests_sent n) t, w).
Hypothesis I_received :
  forall t w n, 0 <= n -> I (t, w) -> I (with_result (add_responses_received n) t, w).
Hypothesis I_unresponsive :
  forall t w, I (t, w) -> I (with_result (add_device_unresponsive_events 1) t, w).
Hypothesis I_verdict :
  forall t w name recovered,
    In name attack_names ->
    I (t, w) ->
    I (with_verdict (verdict_method name recovered) t,
       record_crash (verdict_method name recovered) w).

Lemma g_lift {A : Type} (m : M World A) :
  moves_on env m -> triple I (lift m) (always I).
Proof.
  intros Mv [t w] H. unfold lift, always. cbn [fst snd].
  specialize (Mv w). destruct (m w) as [r w']. cbn [fst snd] in *.
  apply (I_advance t w w' Mv H).
Qed.

Lemma g_self_get {A : Type} (f : CrashTester -> A) :
  triple I (self_get f) (always I).
Proof. intros s H. exact H. Qed.

Lemma g_sent (n : Z) :
  0 <= n -> triple I (self_result_update (add_requests_sent n)) (always I).
Proof. intros N [t w] H. apply (I_sent t w n N H). Qed.

Lemma g_received (n : Z) :
  0 <= n -> triple I (self_result_update (add_responses_received n)) (always I).
Proof. intros N [t w] H. apply (I_received t w n N H). Qed.

Lemma g_log_attack (name : string) :
  triple I (lift (log (EvAttack name))) (always I).
Proof. intros [t w] H. apply I_attack. exact H. Qed.

Lemma g_check_for_crash (fuel : nat) (name : string) :
  In name attack_names ->
  triple I (check_for_crash env fuel name) (always I).
Proof.
  intros Name [t w] H. unfold always. rewrite check_for_crash_eq.
  assert (H1 : I (t, after_interaction env w)).
  { apply (I_advance t w); [apply advances_interact, advances_refl | exact H]. }
  destruct (answers env (tick w) (scb_ip t) 3); [exact H1|].
  pose proof (moves_on_wait_for_device env fuel (scb_ip t) 60 2
                (after_interaction env w)) as Mv.
  destruct (wait_for_device env fuel (scb_ip t) 60 2 (after_interaction env w))
    as [[recovered | e |] w1]; cbn [fst snd] in *.
  - apply (I_verdict t w1 name recovered Name).
    apply (I_advance t _ w1 Mv H1).
  - apply (I_advance _ _ w1 Mv). apply I_unresponsive. exact H1.
  - apply (I_advance _ _ w1 Mv). apply I_unresponsive. exact H1.
Qed.

Ltac g_step :=
  match goal with
  | H : triple ?P ?m ?Q |- triple ?P ?m ?Q => exact H
  | |- triple _ (mbind _ _) _ =>
      apply triple_bind_inv;
      [ | intros ? | intros ? ? HI; exact HI | intros ? HI; exact HI ]
  | |- triple _ (ret _) _ => apply triple_ret; intros ? HI; exact HI
  | |- triple _ (of_outcome _) _ => apply triple_of_outcome
  | |- triple _ (lift (log (EvAttack _))) _ => apply g_log_attack
  | |- triple _ (lift _) _ => apply g_lift
  | |- triple _ (self_get _) _ => apply g_self_get
  | |- triple _ (self_result_update (add_requests_sent _)) _ =>
      apply g_sent; first [ apply N2Z.is_nonneg | lia ]
  | |- triple _ (self_result_update (add_responses_received _)) _ =>
      apply g_received; first [ apply N2Z.is_nonneg | lia ]
  | |- triple _ (check_for_crash _ _ _) _ =>
      apply g_check_for_crash; unfold attack_names; cbn [In]; tauto
  | |- triple _ (if ?c then _ else _) _ => destruct c
  | |- triple _ (match ?x with Some _ => _ | None => _ end) _ => destruct x
  | |- moves_on _ _ =>
      first [ apply moves_on_time_time | apply moves_on_time_sleep
            | apply moves_on_interact | apply moves_on_read_stop_flag
            | apply moves_on_sock_connect | apply moves_on_open_sockets
            | apply moves_on_close_all ]
  end.

Lemma g_run_workers (name : string) (looping count_responses : bool) :
  triple I (run_workers env name looping count_responses) (always I).
Proof. unfold run_workers. repeat g_step. Qed.

Lemma g_send_on_all (sockets : list socket) (cmd : bytes) :
  triple I (send_on_all env sockets cmd) (always I).
Proof.
  induction sockets as [|s rest IH]; cbn [send_on_all]; repeat g_step.
Qed.

Lemma g_connection_overflow_body (cmd : bytes) :
  triple I (connection_overflow_body env cmd) (always I).
Proof.
  unfold connection_overflow_body. repeat g_step. apply g_send_on_all.
Qed.

Lemma g_rapid_reconnect_body (cmd : bytes) :
  triple I (rapid_reconnect_body env cmd) (always I).
Proof. unfold rapid_reconnect_body. repeat g_step. Qed.

Ltac g_more :=
  first [ g_step
        | apply g_run_workers
        | apply g_connection_overflow_body
        | apply g_rapid_reconnect_body ].

Lemma g_connection_overflow_loop (fuel : nat) (cmd : bytes) (idx : list Z) :
  triple I (connection_overflow_loop env fuel cmd idx) (always I).
Proof.
  induction idx as [|i idx IH]; cbn [connection_overflow_loop]; repeat g_more.
Qed.

Lemma g_rapid_reconnect_loop (fuel : nat) (cmd : bytes) (idx : list Z) :
  triple I (rapid_reconnect_loop env fuel cmd idx) (always I).
Proof.
  induction idx as [|i idx IH]; cbn [rapid_reconnect_loop]; repeat g_more.
Qed.

Lemma g_attack_concurrent_flood (fuel : nat) (duration : Q) (num_sockets : Z) :
  triple I (attack_concurrent_flood env fuel duration num_sockets) (always I).
Proof. unfold attack_concurrent_flood. repeat g_more. Qed.

Lemma g_attack_connection_overflow (fuel : nat) (iterations : Z) :
  triple I (attack_connection_overflow env fuel iterations) (always I).
Proof.
  unfold attack_connection_overflow.
  repeat first [ g_more | apply g_connection_overflow_loop ].
Qed.

Lemma g_attack_rapid_reconnect (fuel : nat) (iterations : Z) :
  triple I (attack_rapid_reconnect env fuel iterations) (always I).
Proof.
  unfold attack_rapid_reconnect.
  repeat first [ g_more | apply g_rapid_reconnect_loop ].
Qed.

Lemma g_attack_combined_stress (fuel : nat) (duration : Q) :
  triple I (attack_combined_stress env fuel duration) (always I).
Proof. unfold attack_combined_stress. repeat g_more. Qed.

Lemma g_attack_sequence (fuel : nat) :
  Forall (fun a => triple I a (always I)) (attack_sequence env fuel).
Proof.
  unfold attack_sequence. repeat constructor.
  - apply g_attack_concurrent_flood.
  - apply g_attack_connection_overflow.
  - apply g_attack_rapid_reconnect.
  - apply g_attack_combined_stress.
Qed.

Lemma g_run_attacks (attacks : list (M Run bool)) (end_time : Q) :
  Forall (fun a => triple I a (always I)) attacks ->
  triple I (run_attacks env attacks end_time) (always I).
Proof.
  induction 1 as [|a rest Ha Hrest IH]; cbn [run_attacks]; repeat g_more.
Qed.

Lemma g_round_loop (fuel : nat) (attacks : list (M Run bool)) (end_time : Q) :
  Forall (fun a => triple I a (always I)) attacks ->
  triple I (round_loop env fuel attacks end_time) (always I).
Proof.
  intros Hall.
  induction fuel as [|fuel IH]; cbn [round_loop].
  - intros s H. exact H.
  - repeat first [ g_more | apply g_run_attacks; exact Hall ].
Qed.

End RunInvariant.

(** A relation that starts reflexive and survives every step holds across
    the attacks and the round loop. *)
Lemma across_of_invariant (env : Env) (fuel : nat) (end_time : Q)
    (R : Run -> Run -> Prop) :
  (forall s0, R s0 s0) ->
  (forall s0 t w w', advances env w w' -> R s0 (t, w) -> R s0 (t, w')) ->
  (forall s0 t w name,
     R s0 (t, w) -> R s0 (t, mkWorld (now w) (tick w) (EvAttack name :: trace w))) ->
  (forall s0 t w n,
     0 <= n -> R s0 (t, w) -> R s0 (with_result (add_requests_sent n) t, w)) ->
  (forall s0 t w n,
     0 <= n -> R s0 (t, w) -> R s0 (with_result (add_responses_received n) t, w)) ->
  (forall s0 t w,
     R s0 (t, w) -> R s0 (with_result (add_device_unresponsive_events 1) t, w)) ->
  (forall s0 t w name recovered,
     In name attack_names ->
     R s0 (t, w) ->
     R s0 (with_verdict (verdict_method name recovered) t,
           record_crash (verdict_method name recovered) w)) ->
  across_attacks_and_rounds env fuel end_time R.
Proof.
  intros Refl Adv Att Sent Recv Unr Ver s duration n.
  assert (T1 : triple (R s) (attack_concurrent_flood env fuel duration n)
                 (always (R s)))
    by (apply g_attack_concurrent_flood; intros; eauto).
  assert (T2 : triple (R s) (attack_connection_overflow env fuel n) (always (R s)))
    by (apply g_attack_connection_overflow; intros; eauto).
  assert (T3 : triple (R s) (attack_rapid_reconnect env fuel n) (always (R s)))
    by (apply g_attack_rapid_reconnect; intros; eauto).
  assert (T4 : triple (R s) (attack_combined_stress env fuel duration)
                 (always (R s)))
    by (apply g_attack_combined_stress; intros; eauto).
  assert (T5 : triple (R s) (round_loop env fuel (attack_sequence env fuel) end_time)
                 (always (R s))).
  { apply g_round_loop; try (intros; eauto; fail).
    apply g_attack_sequence; intros; eauto. }
  repeat split.
  - exact (T1 s (Refl s)).
  - exact (T2 s (Refl s)).
  - exact (T3 s (Refl s)).
  - exact (T4 s (Refl s)).
  - exact (T5 s (Refl s)).
Qed.

Lemma count_crash_events_attack (name : string) (tr : list event) :
  count_crash_events (EvAttack name :: tr) = count_crash_events tr.
Proof. reflexivity. Qed.

Lemma count_crash_events_crash (method : string) (tr : list event) :
  count_crash_events (EvCrashSet method :: tr) = 1 + count_crash_events tr.
Proof.
  unfold count_crash_events, len. cbn [filter is_crash_event List.length]. lia.
Qed.


(** The tester's bookkeeping across the attacks and the round loop. *)
Lemma bookkeeping_across (env : Env) (fuel : nat) (deadline : Q) :
  across_attacks_and_rounds env fuel deadline
    (fun s0 s => bookkeeping_kept (fst s0) (fst s)).
Proof.
  apply across_of_invariant; unfold bookkeeping_kept;
    intros; cbn [fst snd with_result with_verdict scb_ip result test_name
                 start_time end_time errors timeouts connection_failures
                 requests_sent responses_received device_unresponsive_events
                 possible_crashes add_requests_sent add_responses_received
                 add_device_unresponsive_events add_possible_crashes] in *;
    intuition lia.
Qed.

(** X14.  None of the four attacks nor the round loop, in whatever state it is
    started and whatever it returns, touches the address, the test name, the
    start and end stamps, the error log, [timeouts] or
    [connection_failures] of the tester, and none ever lowers one of the four
    counters it does write. *)
Theorem bookkeeping_is_kept (env : Env) (fuel : nat) (deadline : Q) :
  across_attacks_and_rounds env fuel deadline
    (fun s0 s => bookkeeping_kept (fst s0) (fst s)).
Proof. apply bookkeeping_across. Qed.


(** The count of verdicts across the attacks and the round loop. *)
Lemma verdicts_across (env : Env) (fuel : nat) (end_time : Q) :
  across_attacks_and_rounds env fuel end_time verdicts_accounted.
Proof.
  apply across_of_invariant; unfold verdicts_accounted; cbv zeta.
  - intros s0. repeat split; try lia.
  - intros s0 t w w' A H. cbn [fst snd] in *.
    rewrite (advances_trace env w w' A). exact H.
  - intros s0 t w name H. cbn [fst snd trace] in *.
    rewrite count_crash_events_attack. exact H.
  - intros s0 t w n N H. exact H.
  - intros s0 t w n N H. exact H.
  - intros s0 t w H.
    cbn [fst snd with_result result crash_detected crash_method
         possible_crashes device_unresponsive_events
         add_device_unresponsive_events] in *.
    intuition lia.
  - intros s0 t w name recovered Name H.
    cbn [fst snd with_verdict record_crash trace result crash_detected crash_method
         possible_crashes device_unresponsive_events
         add_device_unresponsive_events add_possible_crashes] in *.
    rewrite count_crash_events_crash.
    destruct H as (G & P & U & _ & _).
    repeat split; try lia.
    exists name, recovered. auto.
Qed.

(** X16.  [possible_crashes] counts the verdicts.  Across an attack or the
    round loop it grows by exactly the number of times [crash_detected] was
    assigned, never by more than [device_unresponsive_events] does; if the
    flag was assigned at all, it is up and [crash_method] is one of the four
    attack names, bare or followed by " (no recovery)"; if it was not, flag
    and method are as before. *)
Theorem verdicts_are_accounted (env : Env) (fuel : nat) (end_time : Q) :
  across_attacks_and_rounds env fuel end_time verdicts_accounted.
Proof. apply verdicts_across. Qed.

(** ** Every method returns *)

Lemma halts_ret {S A : Type} (a : A) : halts (@ret S A a).
Proof. intros s. eexists _, _. reflexivity. Qed.

Lemma halts_bind {S A B : Type} (m : M S A) (k : A -> M S B) :
  halts m -> (forall a, halts (k a)) -> halts (mbind m k).
Proof.
  intros Hm Hk s. unfold mbind.
  destruct (Hm s) as (a & s' & E). rewrite E. apply Hk.
Qed.

Lemma halts_lift {A : Type} (m : M World A) : halts m -> halts (lift m).
Proof.
  intros Hm [t w]. unfold lift. cbn [fst snd].
  destruct (Hm w) as (a & w' & E). rewrite E. eexists _, _. reflexivity.
Qed.

Lemma halts_of_outcome {S A : Type} (o : outcome A) :
  (exists a, o = Ok a) -> halts (@of_outcome S A o).
Proof. intros (a & ->) s. eexists _, _. reflexivity. Qed.

Lemma halts_self_get {A : Type} (f : CrashTester -> A) : halts (self_get f).
Proof. intros s. eexists _, _. reflexivity. Qed.

Lemma halts_self_result_update (f : TestResult -> TestResult) :
  halts (self_result_update f).
Proof. intros s. eexists _, _. reflexivity. Qed.

Lemma halts_time_time : halts time_time.
Proof. intros w. eexists _, _. reflexivity. Qed.

Lemma halts_time_sleep (d : Q) : (0 <= d)%Q -> halts (time_sleep d).
Proof. intros D w. rewrite time_sleep_eq by exact D. eexists _, _. reflexivity. Qed.

Lemma halts_log (e : event) : halts (log e).
Proof. intros w. eexists _, _. reflexivity. Qed.

Lemma large_frame_built :
  exists f, build_command SCB_ADDRESS CMD_GET_SCB_DATA (repeat xaa 1500) = Ok f.
Proof.
  destruct (build_command_frame SCB_ADDRESS CMD_GET_SCB_DATA (repeat xaa 1500))
    as (lo & hi & ba & bc & E & _).
  - unfold SCB_ADDRESS. lia.
  - unfold CMD_GET_SCB_DATA. lia.
  - unfold len. rewrite repeat_length. lia.
  - eexists. exact E.
Qed.

Section Halting.

Variable env : Env.
Variable fuel : nat.
Hypothesis elapsed_nonneg : forall n, (0 <= elapsed env n)%Q.
Hypothesis fuel_enough : (31 <= fuel)%nat.

Lemma halts_interact {A : Type} (f : nat -> A) : halts (interact env f).
Proof. intros w. eexists _, _. reflexivity. Qed.

Lemma halts_read_stop_flag : halts (read_stop_flag env).
Proof. intros w. eexists _, _. reflexivity. Qed.

Lemma halts_sock_connect (ip : string) (timeout : Q) :
  halts (sock_connect env ip timeout).
Proof.
  intros w. unfold sock_connect, interact.
  destruct (io_ok env (tick w)); eexists _, _; reflexivity.
Qed.

Lemma halts_open_sockets (n : nat) (ip : string) (timeout : Q) :
  halts (open_sockets env n ip timeout).
Proof.
  induction n as [|n IH]; cbn [open_sockets]; [apply halts_ret|].
  apply halts_bind; [apply halts_sock_connect|]. intros s.
  apply halts_bind; [exact IH|]. intros rest. apply halts_ret.
Qed.

Lemma halts_close_all (sockets : list socket) : halts (close_all env sockets).
Proof.
  induction sockets as [|s rest IH]; cbn [close_all]; [apply halts_ret|].
  apply halts_bind; [apply halts_interact|]. intros _. exact IH.
Qed.

(** The recovery wait of [check_for_crash]: sixty seconds in turns of at
    least two. *)
Lemma halts_recovery_wait (ip : string) : halts (wait_for_device env fuel ip 60 2).
Proof.
  intros w. rewrite wait_for_device_eq.
  destruct fuel as [|f] eqn:Ef; [lia|].
  destruct (wait_for_device_loop_returns env ip (now w + 60)%Q 2 ltac:(reflexivity)
              elapsed_nonneg f w) as (b & w' & E & _).
  { assert (F : (30 <= inject_Z (Z.of_nat f))%Q).
    { change 30%Q with (inject_Z 30). rewrite <- Zle_Qle. lia. }
    lra. }
  exists b, w'. exact E.
Qed.

Lemma halts_check_for_crash (name : string) : halts (check_for_crash env fuel name).
Proof.
  intros [t w]. rewrite check_for_crash_eq.
  destruct (answers env (tick w) (scb_ip t) 3); [eexists _, _; reflexivity|].
  destruct (halts_recovery_wait (scb_ip t) (after_interaction env w))
    as (b & w1 & E).
  rewrite E. eexists _, _. reflexivity.
Qed.

Ltac h_step :=
  match goal with
  | H : halts ?m |- halts ?m => exact H
  | |- halts (mbind _ _) => apply halts_bind; [ | intros ? ]
  | |- halts (ret _) => apply halts_ret
  | |- halts (of_outcome (build_command SCB_ADDRESS CMD_GET_SCB_DATA [])) =>
      apply halts_of_outcome; exists probe_frame; reflexivity
  | |- halts (of_outcome _) => apply halts_of_outcome; apply large_frame_built
  | |- halts (lift _) => apply halts_lift
  | |- halts (self_get _) => apply halts_self_get
  | |- halts (self_result_update _) => apply halts_self_result_update
  | |- halts (check_for_crash _ _ _) => apply halts_check_for_crash
  | |- halts (log _) => apply halts_log
  | |- halts time_time => apply halts_time_time
  | |- halts (time_sleep _) => apply halts_time_sleep; vm_compute; discriminate
  | |- halts (interact _ _) => apply halts_interact
  | |- halts (read_stop_flag _) => apply halts_read_stop_flag
  | |- halts (sock_connect _ _ _) => apply halts_sock_connect
  | |- halts (sock_send _ _ _) => apply halts_interact
  | |- halts (sock_close _ _) => apply halts_interact
  | |- halts (open_sockets _ _ _ _) => apply halts_open_sockets
  | |- halts (close_all _ _) => apply halts_close_all
  | |- halts (if ?c then _ else _) => destruct c
  | |- halts (match ?x with Some _ => _ | None => _ end) => destruct x
  end.

Lemma halts_run_workers (name : string) (looping count_responses : bool) :
  halts (run_workers env name looping count_responses).
Proof. unfold run_workers. repeat h_step. Qed.

Lemma halts_send_on_all (sockets : list socket) (cmd : bytes) :
  halts (send_on_all env sockets cmd).
Proof.
  induction sockets as [|s rest IH]; cbn [send_on_all]; repeat h_step.
Qed.

Lemma halts_connection_overflow_body (cmd : bytes) :
  halts (connection_overflow_body env cmd).
Proof.
  unfold connection_overflow_body. repeat h_step. apply halts_send_on_all.
Qed.

Lemma halts_rapid_reconnect_body (cmd : bytes) :
  halts (rapid_reconnect_body env cmd).
Proof. unfold rapid_reconnect_body. repeat h_step. Qed.

Lemma halts_connection_overflow_loop (cmd : bytes) (idx : list Z) :
  halts (connection_overflow_loop env fuel cmd idx).
Proof.
  induction idx as [|i idx IH]; cbn [connection_overflow_loop];
    repeat first [ h_step | apply halts_connection_overflow_body ].
Qed.

Lemma halts_rapid_reconnect_loop (cmd : bytes) (idx : list Z) :
  halts (rapid_reconnect_loop env fuel cmd idx).
Proof.
  induction idx as [|i idx IH]; cbn [rapid_reconnect_loop];
    repeat first [ h_step | apply halts_rapid_reconnect_body ].
Qed.

Lemma halts_attack_concurrent_flood (duration : Q) (num_sockets : Z) :
  halts (attack_concurrent_flood env fuel duration num_sockets).
Proof.
  unfold attack_concurrent_flood. repeat first [ h_step | apply halts_run_workers ].
Qed.

Lemma halts_attack_connection_overflow (iterations : Z) :
  halts (attack_connection_overflow env fuel iterations).
Proof.
  unfold attack_connection_overflow.
  repeat first [ h_step | apply halts_connection_overflow_loop ].
Qed.

Lemma halts_attack_rapid_reconnect (iterations : Z) :
  halts (attack_rapid_reconnect env fuel iterations).
Proof.
  unfold attack_rapid_reconnect.
  repeat first [ h_step | apply halts_rapid_reconnect_loop ].
Qed.

Lemma halts_attack_combined_stress (duration : Q) :
  halts (attack_combined_stress env fuel duration).
Proof.
  unfold attack_combined_stress. repeat first [ h_step | apply halts_run_workers ].
Qed.



End Halting.

(** ** The round loop, turn by turn *)

(** The world after a read of the stop flag, and after the pause between
    rounds. *)
Lemma round_loop_turn (env : Env) (fuel : nat) (attacks : list (M Run bool))
    (deadline : Q) (t : CrashTester) (w : World) :
  round_loop env (S fuel) attacks deadline (t, w) =
    if Qltb (now w) deadline then
      if stop_flag env (tick w)
      then (Val tt, (t, mkWorld (now w) (S (tick w)) (trace w)))
      else if crash_detected t
      then (Val tt, (t, mkWorld (now w) (S (tick w)) (trace w)))
      else
        match run_attacks env attacks deadline
                (t, mkWorld (now w) (S (tick w)) (trace w)) with
        | (Val _, s2) =>
            if crash_detected (fst s2)
            then round_loop env fuel attacks deadline s2
            else round_loop env fuel attacks deadline
                   (fst s2,
                    mkWorld (now (snd s2) + 2)%Q (tick (snd s2)) (trace (snd s2)))
        | (Exc e, s2) => (Exc e, s2)
        | (OutOfFuel, s2) => (OutOfFuel, s2)
        end
    else (Val tt, (t, w)).
Proof.
  cbn [round_loop].
  unfold mbind at 1. unfold lift at 1, time_time at 1. cbn [fst snd].
  destruct (Qltb (now w) deadline); [|reflexivity].
  unfold mbind at 1. unfold lift at 1, read_stop_flag at 1. cbn [fst snd].
  destruct (stop_flag env (tick w)); [reflexivity|].
  unfold mbind at 1. unfold self_get at 1. cbn [fst snd].
  destruct (crash_detected t); [reflexivity|].
  unfold mbind at 1.
  destruct (run_attacks env attacks deadline
              (t, mkWorld (now w) (S (tick w)) (trace w))) as [[u | e |] [t2 w2]];
    try reflexivity.
  unfold mbind at 1. unfold self_get at 1. cbn [fst snd].
  destruct (crash_detected t2).
  - unfold mbind at 1. unfold ret at 1. reflexivity.
  - unfold mbind at 1. unfold lift at 1. cbn [fst snd].
    rewrite time_sleep_eq by (vm_compute; discriminate). reflexivity.
Qed.

(** Why the round loop returns: a crash was detected, the deadline has
    passed, or the stop flag was read set. *)
Lemma round_loop_exit_reason (env : Env) (attacks : list (M Run bool))
    (deadline : Q) (fuel : nat) :
  forall (s s' : Run) (u : unit),
    round_loop env fuel attacks deadline s = (Val u, s') ->
    crash_detected (fst s') = true
    \/ (deadline <= now (snd s'))%Q
    \/ exists n, stop_flag env n = true.
Proof.
  induction fuel as [|fuel IH]; intros [t w] s' u E; [discriminate E|].
  rewrite round_loop_turn in E.
  destruct (Qltb (now w) deadline) eqn:T.
  - destruct (stop_flag env (tick w)) eqn:St.
    + right. right. exists (tick w). exact St.
    + destruct (crash_detected t) eqn:Fl.
      * injection E as _ <-. left. exact Fl.
      * destruct (run_attacks env attacks deadline
                    (t, mkWorld (now w) (S (tick w)) (trace w)))
          as [[u2 | e |] s2]; try discriminate E.
        destruct (crash_detected (fst s2)); apply (IH _ _ _ E).
  - apply Qltb_ge in T. injection E as _ <-. right. left. exact T.
Qed.

(** X17.  When the round loop of [run_crash_test] returns, a crash was
    detected, or the clock has reached the deadline, or the stop flag was
    read set: a run with no crash and no stop request lasts at least the
    configured duration. *)
Theorem round_loop_runs_to_deadline (env : Env) (fuel : nat) (deadline : Q)
    (s s' : Run) :
  round_loop env fuel (attack_sequence env fuel) deadline s = (Val tt, s') ->
  crash_detected (fst s') = false ->
  (forall n, stop_flag env n = false) ->
  (deadline <= now (snd s'))%Q.
Proof.
  intros E Fl St.
  destruct (round_loop_exit_reason env _ deadline fuel s s' tt E)
    as [C | [D | (n & S1)]].
  - congruence.
  - exact D.
  - rewrite St in S1. discriminate S1.
Qed.

Lemma round_loop_runs_to_deadline_witness :
  (round_loop (blinking_device 2000) 5 (attack_sequence (blinking_device 2000) 5) 1
     (fresh_tester, world0)
   = (Val tt,
      snd (round_loop (blinking_device 2000) 5
             (attack_sequence (blinking_device 2000) 5) 1 (fresh_tester, world0)))
   /\ crash_detected
        (fst (snd (round_loop (blinking_device 2000) 5
                     (attack_sequence (blinking_device 2000) 5) 1
                     (fresh_tester, world0)))) = false
   /\ (forall n, stop_flag (blinking_device 2000) n = false))
  /\ (1 <= now (snd (snd (round_loop (blinking_device 2000) 5
                            (attack_sequence (blinking_device 2000) 5) 1
                            (fresh_tester, world0)))))%Q.
Proof.
  assert (H1 : round_loop (blinking_device 2000) 5
                 (attack_sequence (blinking_device 2000) 5) 1 (fresh_tester, world0)
               = (Val tt,
                  snd (round_loop (blinking_device 2000) 5
                         (attack_sequence (blinking_device 2000) 5) 1
                         (fresh_tester, world0))))
    by (vm_compute; reflexivity).
  assert (H2 : crash_detected
                 (fst (snd (round_loop (blinking_device 2000) 5
                              (attack_sequence (blinking_device 2000) 5) 1
                              (fresh_tester, world0)))) = false)
    by (vm_compute; reflexivity).
  assert (H3 : forall n, stop_flag (blinking_device 2000) n = false)
    by (intros n; reflexivity).
  split.
  - split; [exact H1 | split; [exact H2 | exact H3]].
  - exact (round_loop_runs_to_deadline (blinking_device 2000) 5 1
             (fresh_tester, world0) _ H1 H2 H3).
Defined.

(** ** The attacks and the whole test *)

Lemma reports_of_verdict (m : M Run bool) (s : Run) :
  halts m -> triple clean m verdict -> clean s -> reports_verdict m s.
Proof.
  intros H T C. destruct (H s) as (b & s' & E).
  specialize (T s C). rewrite E in T. cbn [fst snd] in T.
  exists b, s'. split; [exact E|].
  destruct b; cbn [verdict] in T.
  - destruct T as (Fl & Ev). split; [exact Fl | exact Ev].
  - destruct T as (Fl & Ev). split; [exact Fl | exact Ev].
Qed.

(** X18.  With interactions that take no negative time and fuel for the
    recovery wait, each of the four attacks, started with the flag down and
    no verdict logged, returns without an exception, and returns exactly the
    crash flag it leaves behind: [True] after having set it once, as its last
    act, and [False] without having touched it. *)
Theorem attacks_return_their_verdict (env : Env) (fuel : nat) (s : Run)
    (duration : Q) (n : Z) :
  (forall k, (0 <= elapsed env k)%Q) ->
  (31 <= fuel)%nat ->
  clean s ->
  reports_verdict (attack_concurrent_flood env fuel duration n) s
  /\ reports_verdict (attack_connection_overflow env fuel n) s
  /\ reports_verdict (attack_rapid_reconnect env fuel n) s
  /\ reports_verdict (attack_combined_stress env fuel duration) s.
Proof.
  intros E F C.
  split; [|split; [|split]]; apply reports_of_verdict; try exact C.
  - apply halts_attack_concurrent_flood; assumption.
  - apply verdict_attack_concurrent_flood.
  - apply halts_attack_connection_overflow; assumption.
  - apply verdict_attack_connection_overflow.
  - apply halts_attack_rapid_reconnect; assumption.
  - apply verdict_attack_rapid_reconnect.
  - apply halts_attack_combined_stress; assumption.
  - apply verdict_attack_combined_stress.
Qed.

Lemma attacks_return_their_verdict_witness :
  ((forall k, (0 <= elapsed dead_device k)%Q)
   /\ (31 <= 31)%nat
   /\ clean (fresh_tester, world0))
  /\ reports_verdict (attack_rapid_reconnect dead_device 31 3) (fresh_tester, world0).
Proof.
  assert (E : forall k, (0 <= elapsed dead_device k)%Q)
    by (intros k; vm_compute; discriminate).
  assert (F : (31 <= 31)%nat) by lia.
  assert (C : clean (fresh_tester, world0)) by (split; reflexivity).
  split.
  - split; [exact E | split; [exact F | exact C]].
  - exact (proj1 (proj2 (proj2 (attacks_return_their_verdict dead_device 31
                                  (fresh_tester, world0) 0%Q 3 E F C)))).
Defined.





(** ** Requests counted by the sequential attacks *)

Lemma sent_at_most_trans (k1 k2 : Z) (s0 s1 s2 : Run) :
  sent_at_most k1 s0 s1 -> sent_at_most k2 s1 s2 -> sent_at_most (k1 + k2) s0 s2.
Proof. unfold sent_at_most. intros (R1 & S1) (R2 & S2). split; [congruence | lia]. Qed.

Lemma spends_mono {A : Type} (k k' : Z) (m : M Run A) :
  k <= k' -> spends k m -> spends k' m.
Proof.
  intros L H s. destruct (H s) as (R & S1). split; [exact R | lia].
Qed.

Lemma spends_bind_val {A B : Type} (k1 k2 : Z) (m : M Run A) (f : A -> M Run B) :
  0 <= k2 ->
  spends k1 m ->
  (forall a s s1, m s = (Val a, s1) -> sent_at_most k2 s1 (snd (f a s1))) ->
  spends (k1 + k2) (mbind m f).
Proof.
  intros K Hm Hf s. unfold mbind. specialize (Hm s).
  destruct (m s) as [[a | e |] s1] eqn:E; cbn [snd] in *.
  - apply (sent_at_most_trans k1 k2 s s1); [exact Hm | exact (Hf a s s1 E)].
  - destruct Hm as (R & S1). split; [exact R | lia].
  - destruct Hm as (R & S1). split; [exact R | lia].
Qed.

Lemma spends_bind {A B : Type} (k1 k2 : Z) (m : M Run A) (f : A -> M Run B) :
  0 <= k2 -> spends k1 m -> (forall a, spends k2 (f a)) ->
  spends (k1 + k2) (mbind m f).
Proof.
  intros K Hm Hf. apply spends_bind_val; [exact K | exact Hm|].
  intros a s s1 _. apply Hf.
Qed.

Lemma spends_first {A B : Type} (k : Z) (m : M Run A) (f : A -> M Run B) :
  0 <= k -> spends 0 m -> (forall a, spends k (f a)) -> spends k (mbind m f).
Proof. intros K Hm Hf. exact (spends_bind 0 k m f K Hm Hf). Qed.

Lemma spends_ret {A : Type} (a : A) : spends 0 (@ret Run A a).
Proof. intros s. split; cbn [ret snd]; lia. Qed.

Lemma spends_of_outcome {A : Type} (o : outcome A) : spends 0 (@of_outcome Run A o).
Proof. intros s. unfold of_outcome. destruct o; split; cbn [snd]; lia. Qed.

Lemma spends_lift {A : Type} (m : M World A) : spends 0 (lift m).
Proof.
  intros [t w]. unfold lift. cbn [fst snd]. destruct (m w) as [r w'].
  split; cbn [fst snd]; lia.
Qed.

Lemma spends_self_get {A : Type} (f : CrashTester -> A) : spends 0 (self_get f).
Proof. intros s. split; cbn [self_get snd]; lia. Qed.

Lemma spends_self_set_crash (method : string) : spends 0 (self_set_crash method).
Proof. intros s. split; cbn [self_set_crash fst snd result]; lia. Qed.

Lemma spends_other_counter (f : TestResult -> TestResult) :
  (forall r, requests_sent (f r) = requests_sent r
             /\ responses_received (f r) = responses_received r) ->
  spends 0 (self_result_update f).
Proof.
  intros H s. destruct (H (result (fst s))) as (S1 & R).
  split; cbn [self_result_update fst snd result]; lia.
Qed.

Lemma spends_one_request : spends 1 (self_result_update (add_requests_sent 1)).
Proof.
  intros s.
  split; cbn [self_result_update fst snd result add_requests_sent
              requests_sent responses_received]; lia.
Qed.

Section Counting.

Variable env : Env.

Ltac spend_zero :=
  match goal with
  | H : spends ?k ?m |- spends ?k ?m => exact H
  | |- spends 0 (mbind _ _) => apply spends_first; [lia | | intros ?]
  | |- spends 0 (ret _) => apply spends_ret
  | |- spends 0 (of_outcome _) => apply spends_of_outcome
  | |- spends 0 (lift _) => apply spends_lift
  | |- spends 0 (self_get _) => apply spends_self_get
  | |- spends 0 (self_set_crash _) => apply spends_self_set_crash
  | |- spends 0 (self_result_update _) =>
      apply spends_other_counter; intros ?; split; reflexivity
  | |- spends _ (if ?c then _ else _) => destruct c
  end.

Lemma spends_check_for_crash (fuel : nat) (name : string) :
  spends 0 (check_for_crash env fuel name).
Proof. unfold check_for_crash. repeat spend_zero. Qed.

Lemma spends_send_on_all (sockets : list socket) (cmd : bytes) :
  spends (len sockets) (send_on_all env sockets cmd).
Proof.
  unfold len.
  induction sockets as [|s rest IH]; cbn [send_on_all List.length].
  - apply spends_ret.
  - apply spends_first; [lia | apply spends_lift | intros ok].
    replace (Z.of_nat (S (List.length rest)))
      with (1 + Z.of_nat (List.length rest)) by lia.
    apply spends_bind; [lia | | intros _; exact IH].
    destruct ok; [apply spends_one_request|].
    apply (spends_mono 0); [lia | apply spends_ret].
Qed.

Lemma open_sockets_length (ip : string) (timeout : Q) (n : nat) :
  forall (w w' : World) (sockets : list socket),
    open_sockets env n ip timeout w = (Val sockets, w') ->
    (List.length sockets <= n)%nat.
Proof.
  induction n as [|n IH]; intros w w' sockets; cbn [open_sockets].
  - unfold ret. intros E. injection E as <- _. cbn [List.length]. lia.
  - unfold mbind at 1.
    destruct (sock_connect env ip timeout w) as [[o | e |] w1]; try discriminate.
    unfold mbind at 1.
    destruct (open_sockets env n ip timeout w1) as [[rest | e |] w2] eqn:E1;
      try discriminate.
    unfold ret. intros E. injection E as <- _.
    pose proof (IH w1 w2 rest E1).
    destruct o; cbn [List.length]; lia.
Qed.

Lemma spends_connection_overflow_body (cmd : bytes) :
  spends (MAX_CLIENTS + 3) (connection_overflow_body env cmd).
Proof.
  unfold connection_overflow_body.
  apply spends_first; [unfold MAX_CLIENTS; lia | apply spends_lift | intros _].
  apply spends_first; [unfold MAX_CLIENTS; lia | apply spends_self_get | intros ip].
  apply (spends_bind_val 0 (MAX_CLIENTS + 3));
    [unfold MAX_CLIENTS; lia | apply spends_lift|].
  intros sockets [t w] [t1 w1] E.
  assert (L : len sockets <= MAX_CLIENTS + 3).
  { unfold lift in E. cbn [fst snd] in E.
    destruct (open_sockets env (Z.to_nat (MAX_CLIENTS + 3)) ip (1 # 2) w)
      as [r w'] eqn:O.
    injection E as -> _ _.
    pose proof (open_sockets_length ip (1 # 2) _ w w' sockets O) as N.
    unfold len, MAX_CLIENTS in *. lia. }
  revert t1 w1 E. intros t1 w1 _.
  assert (Sp : spends (MAX_CLIENTS + 3)
                 (send_on_all env sockets cmd ;;; lift (close_all env sockets))).
  { apply (spends_mono (len sockets + 0)); [lia|].
    apply spends_bind; [lia | apply spends_send_on_all | intros _; apply spends_lift]. }
  exact (Sp (t1, w1)).
Qed.

Lemma spends_rapid_reconnect_body (cmd : bytes) :
  spends 1 (rapid_reconnect_body env cmd).
Proof.
  unfold rapid_reconnect_body.
  apply spends_first; [lia | apply spends_lift | intros _].
  apply spends_first; [lia | apply spends_self_get | intros ip].
  apply spends_first; [lia | apply spends_lift | intros [h|]].
  - apply spends_first; [lia | apply spends_lift | intros [|]].
    + apply (spends_bind 1 0); [lia | apply spends_one_request | intros _].
      repeat spend_zero.
    + apply (spends_mono 0); [lia | apply spends_ret].
  - apply (spends_mono 0); [lia | apply spends_ret].
Qed.

Lemma spends_connection_overflow_loop (fuel : nat) (cmd : bytes) (idx : list Z) :
  spends ((MAX_CLIENTS + 3) * len idx) (connection_overflow_loop env fuel cmd idx).
Proof.
  unfold len.
  induction idx as [|i idx IH]; cbn [connection_overflow_loop List.length].
  - apply (spends_mono 0); [unfold MAX_CLIENTS; lia | apply spends_ret].
  - assert (P : 0 <= (MAX_CLIENTS + 3) * Z.of_nat (List.length idx))
      by (unfold MAX_CLIENTS; lia).
    assert (P' : 0 <= (MAX_CLIENTS + 3) * Z.of_nat (S (List.length idx)))
      by (unfold MAX_CLIENTS; lia).
    apply spends_first; [exact P' | apply spends_lift | intros stop].
    apply spends_first; [exact P' | apply spends_self_get | intros detected].
    destruct (stop || detected).
    + apply (spends_mono 0); [exact P' | apply spends_ret].
    + replace ((MAX_CLIENTS + 3) * Z.of_nat (S (List.length idx)))
        with ((MAX_CLIENTS + 3) + (MAX_CLIENTS + 3) * Z.of_nat (List.length idx))
        by lia.
      apply spends_bind;
        [exact P | apply spends_connection_overflow_body | intros _].
      destruct ((0 <? i) && (i mod 10 =? 0)); [|exact IH].
      apply spends_first; [exact P | apply spends_check_for_crash | intros [|]];
        [|exact IH].
      apply (spends_mono 0); [exact P | apply spends_ret].
Qed.

Lemma spends_rapid_reconnect_loop (fuel : nat) (cmd : bytes) (idx : list Z) :
  spends (len idx) (rapid_reconnect_loop env fuel cmd idx).
Proof.
  unfold len.
  induction idx as [|i idx IH]; cbn [rapid_reconnect_loop List.length].
  - apply spends_ret.
  - apply spends_first; [lia | apply spends_lift | intros stop].
    apply spends_first; [lia | apply spends_self_get | intros detected].
    destruct (stop || detected).
    + apply (spends_mono 0); [lia | apply spends_ret].
    + replace (Z.of_nat (S (List.length idx)))
        with (1 + Z.of_nat (List.length idx)) by lia.
      apply spends_bind; [lia | apply spends_rapid_reconnect_body | intros _].
      destruct ((0 <? i) && (i mod 25 =? 0)); [|exact IH].
      apply spends_first; [lia | apply spends_check_for_crash | intros [|]];
        [|exact IH].
      apply (spends_mono 0); [lia | apply spends_ret].
Qed.

Lemma len_range (n : Z) : len (range n) = Z.max 0 n.
Proof. unfold len, range. rewrite length_map, length_seq. lia. Qed.

End Counting.

(** *** One request for each successful send *)

Lemma count_ok_succ (env : Env) (start n : nat) :
  count_ok env start (S n)
  = ((if io_ok env start then 1 else 0) + count_ok env (S start) n)%nat.
Proof.
  unfold count_ok. cbn [seq filter].
  destruct (io_ok env start); reflexivity.
Qed.

Lemma count_ok_all (env : Env) (start n : nat) :
  (forall k, io_ok env k = true) -> count_ok env start n = n.
Proof.
  intros H. revert start. induction n as [|n IH]; intros start.
  - reflexivity.
  - rewrite count_ok_succ, H, IH. reflexivity.
Qed.

(** The sockets [open_sockets] returns: one for each connect that succeeds. *)
Lemma open_sockets_count (env : Env) (ip : string) (timeout : Q) (n : nat) :
  forall w : World,
    exists sockets w',
      open_sockets env n ip timeout w = (Val sockets, w')
      /\ List.length sockets = count_ok env (tick w) n
      /\ tick w' = (tick w + n)%nat.
Proof.
  induction n as [|n IH]; intros w; cbn [open_sockets].
  - exists [], w. split; [reflexivity|]. split; [reflexivity | lia].
  - unfold mbind at 1. unfold sock_connect at 1, interact at 1.
    destruct (IH (mkWorld (now w + elapsed env (tick w))%Q (S (tick w)) (trace w)))
      as (rest & w' & E & L & T).
    cbn [tick] in L, T.
    rewrite count_ok_succ.
    destruct (io_ok env (tick w)); unfold mbind at 1; rewrite E; unfold ret;
      eexists _, w'; (split; [reflexivity|]); cbn [List.length]; split; lia.
Qed.

(** [send_on_all]: one request for each send that succeeds. *)
Lemma send_on_all_counted (env : Env) (cmd : bytes) (sockets : list socket) :
  forall (t : CrashTester) (w : World),
    counted (Z.of_nat (count_ok env (tick w) (List.length sockets))) tt
      (send_on_all env sockets cmd) (t, w).
Proof.
  induction sockets as [|h rest IH]; intros t w; unfold counted;
    cbn [send_on_all List.length].
  - exists (t, w). unfold count_ok. cbn [fst snd seq filter List.length].
    repeat split; lia.
  - rewrite count_ok_succ.
    unfold mbind at 1. unfold lift at 1. unfold sock_send at 1, interact at 1.
    cbn [fst snd].
    destruct (io_ok env (tick w)).
    + unfold mbind at 1. unfold self_result_update at 1. cbn [fst snd].
      destruct (IH (mkCrashTester (scb_ip t) (crash_detected t) (crash_method t)
                      (add_requests_sent 1 (result t)))
                   (mkWorld (now w + elapsed env (tick w))%Q (S (tick w)) (trace w)))
        as (s' & E & I & F & R).
      cbn [tick fst snd scb_ip crash_detected result requests_sent
           add_requests_sent] in E, I, F, R.
      exists s'. cbn [fst snd]. split; [exact E|].
      split; [exact I|]. split; [exact F | lia].
    + unfold mbind at 1. unfold ret at 1.
      destruct (IH t (mkWorld (now w + elapsed env (tick w))%Q (S (tick w)) (trace w)))
        as (s' & E & I & F & R).
      cbn [tick fst snd] in E, I, F, R.
      exists s'. cbn [fst snd]. split; [exact E|].
      split; [exact I|]. split; [exact F | lia].
Qed.

Lemma close_all_returns (env : Env) (sockets : list socket) (w : World) :
  exists w', close_all env sockets w = (Val tt, w').
Proof.
  revert w. induction sockets as [|h rest IH]; intros w; cbn [close_all].
  - exists w. reflexivity.
  - unfold mbind at 1. unfold sock_close, interact. apply IH.
Qed.

(** One iteration of the connection overflow: as many requests as sends that
    succeed, on as many sockets as connects that succeeded. *)
Lemma connection_overflow_body_counted (env : Env) (cmd : bytes)
    (t : CrashTester) (w : World) :
  counted
    (Z.of_nat (count_ok env (tick w + Z.to_nat (MAX_CLIENTS + 3))
                 (count_ok env (tick w) (Z.to_nat (MAX_CLIENTS + 3)))))
    tt (connection_overflow_body env cmd) (t, w).
Proof.
  unfold counted, connection_overflow_body.
  unfold mbind at 1. unfold lift at 1, log at 1. cbn [fst snd].
  unfold mbind at 1. unfold self_get at 1. cbn [fst snd].
  unfold mbind at 1. unfold lift at 1. cbn [fst snd].
  destruct (open_sockets_count env (scb_ip t) (1 # 2) (Z.to_nat (MAX_CLIENTS + 3))
              (mkWorld (now w) (tick w) (EvAttack "connection_overflow" :: trace w)))
    as (sockets & w1 & E & L & T).
  cbn [tick] in L, T. rewrite E.
  unfold mbind at 1.
  destruct (send_on_all_counted env cmd sockets t w1)
    as (s2 & E2 & I2 & F2 & R2).
  rewrite E2. destruct s2 as [t2 w2']. cbn [fst snd] in I2, F2, R2.
  unfold lift. cbn [fst snd].
  destruct (close_all_returns env sockets w2') as (w3 & E3). rewrite E3.
  exists (t2, w3). cbn [fst snd].
  split; [reflexivity|]. split; [exact I2|]. split; [exact F2|].
  rewrite R2, L, T. reflexivity.
Qed.

(** One iteration of the rapid reconnect: one request when the connect and
    the send both succeed, none otherwise. *)
Lemma rapid_reconnect_body_counted (env : Env) (cmd : bytes)
    (t : CrashTester) (w : World) :
  counted (if io_ok env (tick w) && io_ok env (S (tick w)) then 1 else 0)
    tt (rapid_reconnect_body env cmd) (t, w).
Proof.
  unfold counted, rapid_reconnect_body.
  unfold mbind at 1. unfold lift at 1, log at 1. cbn [fst snd].
  unfold mbind at 1. unfold self_get at 1. cbn [fst snd].
  unfold mbind at 1. unfold lift at 1. unfold sock_connect at 1, interact at 1.
  cbn [fst snd tick now trace].
  destruct (io_ok env (tick w)); cbn [andb].
  - unfold mbind at 1. unfold lift at 1. unfold sock_send at 1, interact at 1.
    cbn [fst snd tick now trace].
    destruct (io_ok env (S (tick w))).
    + unfold mbind at 1. unfold self_result_update at 1. cbn [fst snd].
      unfold mbind at 1. unfold lift at 1. unfold sock_close at 1, interact at 1.
      cbn [fst snd]. unfold ret.
      eexists. split; [reflexivity|].
      cbn [fst snd scb_ip crash_detected result requests_sent add_requests_sent].
      repeat split; lia.
    + unfold ret. eexists. split; [reflexivity|]. cbn [fst snd]. repeat split; lia.
  - unfold ret. eexists. split; [reflexivity|]. cbn [fst snd]. repeat split; lia.
Qed.

Section Counted.

Variable env : Env.
Variable fuel : nat.
Variable ip : string.
Hypothesis calls_succeed : forall n, io_ok env n = true.
Hypothesis no_stop : forall n, stop_flag env n = false.
Hypothesis probes_answered : forall n, answers env n ip 3 = true.

Lemma check_for_crash_counted (name : string) (s : Run) :
  scb_ip (fst s) = ip -> counted 0 false (check_for_crash env fuel name) s.
Proof.
  destruct s as [t w]. cbn [fst]. intros I. unfold counted.
  rewrite check_for_crash_eq, I, probes_answered.
  eexists. split; [reflexivity|]. cbn [fst snd]. repeat split; lia.
Qed.

Lemma rapid_reconnect_loop_counted (cmd : bytes) (idx : list Z) :
  forall s : Run,
    scb_ip (fst s) = ip ->
    crash_detected (fst s) = false ->
    counted (len idx) None (rapid_reconnect_loop env fuel cmd idx) s.
Proof.
  unfold len, counted.
  induction idx as [|i idx IH]; intros [t w] I F; cbn [fst snd] in *;
    cbn [rapid_reconnect_loop List.length].
  - exists (t, w). cbn [fst snd]. repeat split; lia.
  - unfold mbind at 1. unfold lift at 1, read_stop_flag at 1. cbn [fst snd].
    rewrite no_stop.
    unfold mbind at 1. unfold self_get at 1. cbn [fst snd].
    rewrite F. cbn [orb].
    destruct (rapid_reconnect_body_counted env cmd t
                (mkWorld (now w) (S (tick w)) (trace w)))
      as ([t1 w1] & E & I1 & F1 & R1).
    cbn [fst snd tick] in I1, F1, R1. rewrite !calls_succeed in R1. cbn [andb] in R1.
    unfold mbind at 1. rewrite E.
    assert (Next : forall w2,
               exists s',
                 rapid_reconnect_loop env fuel cmd idx (t1, w2) = (Val None, s')
                 /\ scb_ip (fst s') = scb_ip t
                 /\ crash_detected (fst s') = false
                 /\ requests_sent (result (fst s'))
                    = requests_sent (result t) + Z.of_nat (S (List.length idx))).
    { intros w2.
      destruct (IH (t1, w2)) as (s' & E' & I' & F' & R');
        [cbn [fst]; congruence | cbn [fst]; congruence |].
      cbn [fst snd] in I', F', R'.
      exists s'. split; [exact E'|].
      split; [congruence|]. split; [congruence | lia]. }
    destruct ((0 <? i) && (i mod 25 =? 0)).
    + unfold mbind at 1. rewrite check_for_crash_eq.
      replace (answers env (tick w1) (scb_ip t1) 3) with true
        by (symmetry; rewrite I1, I; apply probes_answered).
      apply (Next (after_interaction env w1)).
    + apply (Next w1).
Qed.

Lemma connection_overflow_loop_counted (cmd : bytes) (idx : list Z) :
  forall s : Run,
    scb_ip (fst s) = ip ->
    crash_detected (fst s) = false ->
    counted ((MAX_CLIENTS + 3) * len idx) None
      (connection_overflow_loop env fuel cmd idx) s.
Proof.
  unfold len, counted.
  induction idx as [|i idx IH]; intros [t w] I F; cbn [fst snd] in *;
    cbn [connection_overflow_loop List.length].
  - exists (t, w). cbn [fst snd]. repeat split; unfold MAX_CLIENTS; lia.
  - unfold mbind at 1. unfold lift at 1, read_stop_flag at 1. cbn [fst snd].
    rewrite no_stop.
    unfold mbind at 1. unfold self_get at 1. cbn [fst snd].
    rewrite F. cbn [orb].
    destruct (connection_overflow_body_counted env cmd t
                (mkWorld (now w) (S (tick w)) (trace w)))
      as ([t1 w1] & E & I1 & F1 & R1).
    cbn [fst snd tick] in I1, F1, R1.
    rewrite !count_ok_all in R1 by exact calls_succeed.
    unfold mbind at 1. rewrite E.
    assert (Next : forall w2,
               exists s',
                 connection_overflow_loop env fuel cmd idx (t1, w2) = (Val None, s')
                 /\ scb_ip (fst s') = scb_ip t
                 /\ crash_detected (fst s') = false
                 /\ requests_sent (result (fst s'))
                    = requests_sent (result t)
                      + (MAX_CLIENTS + 3) * Z.of_nat (S (List.length idx))).
    { intros w2.
      destruct (IH (t1, w2)) as (s' & E' & I' & F' & R');
        [cbn [fst]; congruence | cbn [fst]; congruence |].
      cbn [fst snd] in I', F', R'.
      exists s'. split; [exact E'|].
      split; [congruence|]. split; [congruence|].
      unfold MAX_CLIENTS in *. lia. }
    destruct ((0 <? i) && (i mod 10 =? 0)).
    + unfold mbind at 1. rewrite check_for_crash_eq.
      replace (answers env (tick w1) (scb_ip t1) 3) with true
        by (symmetry; rewrite I1, I; apply probes_answered).
      apply (Next (after_interaction env w1)).
    + apply (Next w1).
Qed.

Lemma attack_rapid_reconnect_counted (iterations : Z) (s : Run) :
  scb_ip (fst s) = ip ->
  crash_detected (fst s) = false ->
  counted (Z.max 0 iterations) false (attack_rapid_reconnect env fuel iterations) s.
Proof.
  intros I F.
  destruct (rapid_reconnect_loop_counted probe_frame (range iterations) s I F)
    as ([t1 w1] & E & I1 & F1 & R1).
  cbn [fst snd] in I1, F1, R1. rewrite len_range in R1.
  unfold counted, attack_rapid_reconnect. rewrite probe_frame_built.
  unfold mbind at 1. unfold of_outcome at 1.
  unfold mbind at 1. rewrite E.
  rewrite check_for_crash_eq.
  replace (answers env (tick w1) (scb_ip t1) 3) with true
    by (symmetry; rewrite I1, I; apply probes_answered).
  eexists. split; [reflexivity|]. cbn [fst snd]. auto.
Qed.

Lemma attack_connection_overflow_counted (iterations : Z) (s : Run) :
  scb_ip (fst s) = ip ->
  crash_detected (fst s) = false ->
  counted ((MAX_CLIENTS + 3) * Z.max 0 iterations) false
    (attack_connection_overflow env fuel iterations) s.
Proof.
  intros I F.
  destruct (connection_overflow_loop_counted probe_frame (range iterations) s I F)
    as ([t1 w1] & E & I1 & F1 & R1).
  cbn [fst snd] in I1, F1, R1. rewrite len_range in R1.
  unfold counted, attack_connection_overflow. rewrite probe_frame_built.
  unfold mbind at 1. unfold of_outcome at 1.
  unfold mbind at 1. rewrite E.
  rewrite check_for_crash_eq.
  replace (answers env (tick w1) (scb_ip t1) 3) with true
    by (symmetry; rewrite I1, I; apply probes_answered).
  eexists. split; [reflexivity|]. cbn [fst snd]. auto.
Qed.

End Counted.

(** X20.  The two sequential attacks count one request for each [send] that
    succeeds, and nothing else.  Whatever the device does and however the
    call ends, [attack_rapid_reconnect(iterations)] raises [requests_sent] by
    [iterations] at most and [attack_connection_overflow(iterations)] by
    [MAX_CLIENTS + 3] for each iteration at most; neither lowers it nor
    touches [responses_received].  One iteration of the rapid reconnect
    counts exactly one request when its connect and its send both succeed and
    none otherwise; one iteration of the connection overflow counts exactly
    the sends that succeed on the sockets it could open.  And against a
    device that accepts every socket call and answers every probe, with no
    stop requested and the flag down, the two attacks return [False] having
    counted exactly [iterations] and [(MAX_CLIENTS + 3) * iterations]
    requests (none for [iterations] below zero). *)
Theorem sequential_attacks_count_requests (env : Env) (fuel : nat)
    (iterations : Z) (cmd : bytes) (s : Run) :
  (sent_at_most (Z.max 0 iterations) s
     (snd (attack_rapid_reconnect env fuel iterations s))
   /\ sent_at_most ((MAX_CLIENTS + 3) * Z.max 0 iterations) s
        (snd (attack_connection_overflow env fuel iterations s)))
  /\ (counted
        (if io_ok env (tick (snd s)) && io_ok env (S (tick (snd s))) then 1 else 0)
        tt (rapid_reconnect_body env cmd) s
      /\ counted
           (Z.of_nat (count_ok env (tick (snd s) + Z.to_nat (MAX_CLIENTS + 3))
                        (count_ok env (tick (snd s)) (Z.to_nat (MAX_CLIENTS + 3)))))
           tt (connection_overflow_body env cmd) s)
  /\ ((forall n, io_ok env n = true) ->
      (forall n, stop_flag env n = false) ->
      (forall n, answers env n (scb_ip (fst s)) 3 = true) ->
      crash_detected (fst s) = false ->
      counted (Z.max 0 iterations) false
        (attack_rapid_reconnect env fuel iterations) s
      /\ counted ((MAX_CLIENTS + 3) * Z.max 0 iterations) false
           (attack_connection_overflow env fuel iterations) s).
Proof.
  split; [|split].
  - split.
    + revert s. change (spends (Z.max 0 iterations)
                          (attack_rapid_reconnect env fuel iterations)).
      unfold attack_rapid_reconnect.
      apply spends_first; [lia | apply spends_of_outcome | intros cmd'].
      rewrite <- len_range.
      apply (spends_mono (len (range iterations) + 0)); [lia|].
      apply spends_bind; [lia | apply spends_rapid_reconnect_loop | intros [b|]].
      * apply spends_ret.
      * apply spends_check_for_crash.
    + revert s. change (spends ((MAX_CLIENTS + 3) * Z.max 0 iterations)
                          (attack_connection_overflow env fuel iterations)).
      unfold attack_connection_overflow.
      apply spends_first;
        [unfold MAX_CLIENTS; lia | apply spends_of_outcome | intros cmd'].
      rewrite <- len_range.
      apply (spends_mono ((MAX_CLIENTS + 3) * len (range iterations) + 0)); [lia|].
      apply spends_bind;
        [lia | apply spends_connection_overflow_loop | intros [b|]].
      * apply spends_ret.
      * apply spends_check_for_crash.
  - destruct s as [t w]. cbn [fst snd]. split.
    + apply rapid_reconnect_body_counted.
    + apply connection_overflow_body_counted.
  - intros Ok Stop Alive Down. split.
    + apply (attack_rapid_reconnect_counted env fuel (scb_ip (fst s)));
        auto.
    + apply (attack_connection_overflow_counted env fuel (scb_ip (fst s)));
        auto.
Qed.

Lemma sequential_attacks_count_requests_witness :
  ((forall n, io_ok healthy_device n = true)
   /\ (forall n, stop_flag healthy_device n = false)
   /\ (forall n, answers healthy_device n (scb_ip fresh_tester) 3 = true)
   /\ crash_detected fresh_tester = false)
  /\ counted 50 false (attack_rapid_reconnect healthy_device 31 50)
       (fresh_tester, world0)
  /\ counted ((MAX_CLIENTS + 3) * 50) false
       (attack_connection_overflow healthy_device 31 50) (fresh_tester, world0).
Proof.
  assert (H1 : forall n, io_ok healthy_device n = true) by reflexivity.
  assert (H2 : forall n, stop_flag healthy_device n = false) by reflexivity.
  assert (H3 : forall n, answers healthy_device n (scb_ip fresh_tester) 3 = true)
    by reflexivity.
  assert (H4 : crash_detected fresh_tester = false) by reflexivity.
  split.
  - split; [exact H1 | split; [exact H2 | split; [exact H3 | exact H4]]].
  - exact (proj2 (proj2 (sequential_attacks_count_requests healthy_device 31 50
                           probe_frame (fresh_tester, world0)))
             H1 H2 H3 H4).
Defined.
